(** * ifmt.py: a shallow embedding of the line-reflow engine

    The program under study is [src/ifmt.py], a text formatter that wraps
    lines at a given number of columns while keeping comment markers,
    bullets and indentation.  Every function of the core is translated
    below under its own name:

      guess_prefix, next_prefix, add_cols, retab, print_words_as_line,
      is_whitespace, resolve_context, process_words, process_line

    together with the main loop of the script ([format_document]).

    Modelling choices.

    - Strings are byte strings (the script targets [/usr/bin/python] and
      divides with [float(i)/deficit]): a string is a [list ascii].  On byte
      strings the three notions of whitespace the script relies on
      ([string.whitespace], the regular expression class [\s] and
      [str.rstrip()]) are the same six characters.
    - Integers are [Z]; Python's [%] is [Z.modulo] (the sign follows the
      divisor).  With [tabstop = 0] Python raises [ZeroDivisionError] at the
      first tab; statements about columns therefore assume [0 < tabstop].
    - The global [output] stream is modelled by the lines written to it:
      every call of [print_words_as_line] writes exactly one physical line
      (the prefix, the printed words, a newline), recorded as a [line_out].
      Each function returns the lines it wrote, in order.
    - The context dictionary is a record that is threaded through the
      calls; its [underflow] key holds the list of deferred words.
    - [line[i]] past the end of a string raises [IndexError]: [guess_prefix]
      returns an [option].
    - The filler index of the justifier is computed in IEEE 754 binary64
      arithmetic, following [SpecFloat] bit for bit.

    The file has three parts: the program, the notions used to state its
    properties, and the properties with their proofs. *)

From Stdlib Require Import Ascii String ZArith Lia Bool Arith SpecFloat.
From Stdlib Require Import List.
Import ListNotations.

(** * The program *)

(** ** Strings *)

Definition str := list ascii.
Definition token := str.

(** A literal, written as a Rocq string. *)
Definition py (s : string) : str := list_ascii_of_string s.

Definition tab : ascii := "009"%char.
Definition newline : ascii := "010"%char.
Definition space : ascii := " "%char.

Definition ascii_eqb (a b : ascii) : bool := Ascii.eqb a b.

Fixpoint str_eqb (a b : str) : bool :=
  match a, b with
  | [], [] => true
  | x :: a', y :: b' => ascii_eqb x y && str_eqb a' b'
  | _, _ => false
  end.

(** [string.whitespace]: space, tab, newline, carriage return, vertical tab,
    form feed. *)
Definition string_whitespace : str :=
  [space; tab; newline; "013"%char; "011"%char; "012"%char].

Definition in_whitespace (c : ascii) : bool :=
  existsb (ascii_eqb c) string_whitespace.

(** Python's [s[a:b]] for [0 <= a <= b]; indices past the end are clipped. *)
Definition slice (a b : nat) (s : str) : str := firstn (b - a) (skipn a s).

(** ** is_whitespace (lines 115-118) *)

Definition is_whitespace (word : token) : bool := forallb in_whitespace word.

(** ** guess_prefix (lines 11-42) *)

(** The loop [while i < len(line): if line[i] in string.whitespace: i += 1
    else: break], entered with [rest = line[i:]]. *)
Fixpoint skip_whitespace_chars (rest : str) (i : nat) : nat :=
  match rest with
  | [] => i
  | c :: rest' => if in_whitespace c then skip_whitespace_chars rest' (S i) else i
  end.

Definition guess_prefix (line : str) : option str :=
  if Nat.eqb (length line) 0 then Some []
  else
    let i := skip_whitespace_chars line 0 in
    if str_eqb (slice i (i + 3) line) (py "// ") then Some (slice 0 (i + 3) line)
    else if str_eqb (slice i (i + 2) line) (py "//") then Some (slice 0 (i + 2) line)
    else if str_eqb (slice i (i + 2) line) (py "# ") then Some (slice 0 (i + 2) line)
    else
      match nth_error line i with
      | None => None (* IndexError *)
      | Some c =>
          if ascii_eqb c "#"%char then
            if str_eqb (slice 0 7 line) (py "#ifndef") then Some []
            else if str_eqb (slice 0 6 line) (py "#ifdef") then Some []
            else if str_eqb (slice 0 6 line) (py "#endif") then Some []
            else Some (slice 0 (i + 1) line)
          else if ascii_eqb c "*"%char then
            let k := skip_whitespace_chars (skipn (i + 1) line) (i + 1) in
            Some (firstn k line)
          else Some (slice 0 i line)
      end.

(** ** next_prefix (lines 45-54) *)

Definition next_prefix (prefix : str) : str :=
  if existsb (ascii_eqb "*"%char) prefix
  then map (fun char => if ascii_eqb char "*"%char then space else char) prefix
  else prefix.

(** ** The formatting context

    The dictionary built at line 247 of the script; [underflow] is the key
    the wrapper adds and removes as it goes.  The script only ever tests it
    with [if underflow:], which a missing key, [None] and the empty list all
    fail: the field is the list of deferred words, empty when there is
    none. *)

Record context := mkContext {
  prefix : str;
  flow : bool;
  justify : bool;
  width : Z;
  tabstop : Z;
  code : bool;
  underflow : list token
}.

Definition set_prefix (p : str) (c : context) : context :=
  mkContext p (flow c) (justify c) (width c) (tabstop c) (code c) (underflow c).

Definition set_flow (f : bool) (c : context) : context :=
  mkContext (prefix c) f (justify c) (width c) (tabstop c) (code c) (underflow c).

Definition set_underflow (u : list token) (c : context) : context :=
  mkContext (prefix c) (flow c) (justify c) (width c) (tabstop c) (code c) u.

(** ** add_cols (lines 58-62) *)

Local Open Scope Z_scope.

(** One step of the loop.  Python's [%] raises [ZeroDivisionError] when
    [tabstop] is 0 and a tab is met, where [Z.modulo] returns a number: the
    embedding stands for the code where [tabstop] is not 0, and the
    statements that say that a result exists, or bound its columns, assume
    [0 < tabstop]. *)
Definition add_char (tabstop : Z) (current_cols : Z) (char : ascii) : Z :=
  if ascii_eqb char tab
  then current_cols + (tabstop - current_cols mod tabstop)
  else current_cols + 1.

Definition add_cols (word : str) (current_cols : Z) (context : context) : Z :=
  fold_left (add_char (tabstop context)) word current_cols.

(** ** retab (lines 66-71) *)

(** [' ' * n]: the empty string when [n <= 0]. *)
Definition spaces (n : Z) : str := repeat space (Z.to_nat n).

(** As in [add_cols], [offset % tabstop] raises when [tabstop] is 0 and the
    word has a tab; the embedding stands for the code where it is not 0. *)
Fixpoint retab (word : str) (offset tabstop : Z) : str :=
  match word with
  | [] => []
  | char :: word' =>
      (if ascii_eqb char tab then spaces (tabstop - offset mod tabstop) else [char])
        ++ retab word' offset tabstop
  end.

(** ** Python numbers used by the justifier

    [float(n)], [/], [*] and [-] on floats are the binary64 operations;
    [int(x)] truncates towards zero.  (For an infinity or a NaN [int] raises;
    the justifier cannot produce one unless a count exceeds the range of a
    double, and the model returns 0 there.) *)

Definition prec : Z := 53.
Definition emax : Z := 1024.

Definition py_float (n : Z) : spec_float := binary_normalize prec emax n 0 false.

Definition py_int (x : spec_float) : Z :=
  match x with
  | S754_finite s m e => cond_Zopp s (Z.shiftl (Zpos m) e)
  | _ => 0
  end.

(** [int((original_words-1)-(float(i)/deficit)*(original_words-2))],
    line 107. *)
Definition filler_index (original_words i deficit : Z) : Z :=
  py_int
    (SFsub prec emax
       (py_float (original_words - 1))
       (SFmul prec emax
          (SFdiv prec emax (py_float i) (py_float deficit))
          (py_float (original_words - 2)))).

(** [list.insert(index, x)]: a negative index counts from the end, and an
    index outside the list is clipped to one of its ends. *)
Definition list_insert {A : Type} (index : Z) (x : A) (l : list A) : list A :=
  let n := Z.of_nat (length l) in
  let index := if index <? 0 then Z.max 0 (index + n) else Z.min index n in
  firstn (Z.to_nat index) l ++ x :: skipn (Z.to_nat index) l.

(** ** print_words_as_line (lines 75-112) *)

(** One physical line of output: the prefix and the words written after it
    (the newline that ends the line is implicit). *)
Record line_out := mkLine {
  lo_prefix : str;
  lo_words : list token
}.

(** Lines 80-90.  [pending] is [words[k:i]], the whitespace words seen since
    the last word that was printed; they are printed only once a
    non-whitespace word follows. *)
Fixpoint printable_words (words pending printed_words : list token) : list token :=
  match words with
  | [] => printed_words
  | word :: words' =>
      if negb (is_whitespace word)
      then printable_words words' [] (printed_words ++ pending ++ [word])
      else printable_words words' (pending ++ [word]) printed_words
  end.

(** Lines 95-100: tabs are removed word by word while the columns are
    counted; returns the new words and the final [cols]. *)
Fixpoint retab_words (printed_words : list token) (cols : Z) (context : context)
  : list token * Z :=
  match printed_words with
  | [] => ([], cols)
  | word :: rest =>
      let word' := retab word cols (tabstop context) in
      let (rest', cols') := retab_words rest (add_cols word' cols context) context in
      (word' :: rest', cols')
  end.

(** Lines 105-108: the loop [while i < deficit], with [count] iterations
    left. *)
Fixpoint insert_fillers (count : nat) (i deficit original_words : Z)
  (printed_words : list token) : list token :=
  match count with
  | O => printed_words
  | S count' =>
      insert_fillers count' (i + 1) deficit original_words
        (list_insert (filler_index original_words i deficit) [space] printed_words)
  end.

Definition print_words_as_line (words : list token) (context : context) : line_out :=
  let printed_words := printable_words words [] [] in
  let printed_words :=
    if justify context && flow context then
      let (printed_words, cols) := retab_words printed_words 0 context in
      let deficit := width context - cols in
      let original_words := Z.of_nat (length printed_words) in
      insert_fillers (Z.to_nat deficit) 0 deficit original_words printed_words
    else printed_words in
  mkLine (prefix context) printed_words.

(** The characters of a physical line, without its newline, and the text of
    a whole output. *)
Definition line_text (l : line_out) : str := lo_prefix l ++ concat (lo_words l).

Definition output_text (out : list line_out) : str :=
  flat_map (fun l => line_text l ++ [newline]) out.

(** ** process_words (lines 129-179) *)

(** Lines 134-141. *)
Definition prepend_underflow (words : list token) (c : context)
  : list token * context :=
  match underflow c with
  | [] => (words, c)
  | u => (u ++ words, set_underflow [] c)
  end.

(** The loop of lines 152-168 up to the first overflow: [rest] is
    [words[word_index:]].  Returns the index of the first word that does not
    fit, or [None] when the words run out first. *)
Fixpoint find_overflow (rest : list token) (word_index : nat) (cols : Z)
  (c : context) : option nat :=
  match rest with
  | [] => None
  | word :: rest' =>
      let cols := add_cols word cols c in
      if cols >? width c then Some word_index
      else find_overflow rest' (S word_index) cols c
  end.

(** Lines 172-174, entered with [rest = words[word_index:]]. *)
Fixpoint skip_whitespace_words (rest : list token) (word_index : nat) : nat :=
  match rest with
  | [] => word_index
  | word :: rest' =>
      if is_whitespace word then skip_whitespace_words rest' (S word_index)
      else word_index
  end.

(** The function recurses on [words[word_index:]], which is not a subterm of
    [words]; [fuel] bounds the depth of the recursion.  [None] is "out of
    fuel" and nothing else. *)
Fixpoint process_words_fuel (fuel : nat) (words : list token) (c : context)
  : option (context * list line_out) :=
  match fuel with
  | O => None
  | S fuel' =>
      let (words, c) := prepend_underflow words c in
      match words with
      | [] => Some (c, [print_words_as_line words c])
      | first :: rest =>
          let cols := 0 in
          let cols := match prefix c with
                      | [] => cols
                      | _ => add_cols (prefix c) cols c
                      end in
          let cols := add_cols first cols c in
          match find_overflow rest 1 cols c with
          | None =>
              if flow c
              then Some (set_underflow (words ++ [[space]]) c, [])
              else Some (c, [print_words_as_line words c])
          | Some word_index =>
              let line := print_words_as_line (firstn word_index words) c in
              let word_index :=
                skip_whitespace_words (skipn word_index words) word_index in
              let c := set_prefix (next_prefix (prefix c)) c in
              if (length words <=? word_index)%nat then Some (c, [line])
              else
                match process_words_fuel fuel' (skipn word_index words) c with
                | Some (c', lines) => Some (c', line :: lines)
                | None => None
                end
          end
      end
  end.

(** Every call is given one unit of fuel more than it has words to pack. *)
Definition process_words (words : list token) (c : context)
  : context * list line_out :=
  match process_words_fuel (S (length (underflow c) + length words)%nat) words c with
  | Some r => r
  | None => (c, [])
  end.

(** ** resolve_context (lines 121-126) *)

Definition resolve_context (c : context) : context * list line_out :=
  match underflow c with
  | [] => (c, [])
  | _ =>
      let (c', lines) := process_words [] (set_flow false c) in
      (set_flow true c', lines)
  end.

(** ** process_line (lines 182-205) *)

(** [str.rstrip()]. *)
Fixpoint rstrip (s : str) : str :=
  match s with
  | [] => []
  | c :: s' =>
      match rstrip s' with
      | [] => if in_whitespace c then [] else [c]
      | r => c :: r
      end
  end.

(** [re.split(r'(\s+)', s)]: the maximal runs of non-whitespace and of
    whitespace characters, alternating, the first and the last piece being
    runs of non-whitespace characters (empty when [s] starts or ends with
    whitespace).  [cur] is the run being read and [in_gap] tells whether it
    is a run of whitespace. *)
Fixpoint re_split_loop (s : str) (in_gap : bool) (cur : str) : list token :=
  match s with
  | [] => if in_gap then [cur; []] else [cur]
  | c :: s' =>
      if Bool.eqb (in_whitespace c) in_gap
      then re_split_loop s' in_gap (cur ++ [c])
      else cur :: re_split_loop s' (negb in_gap) [c]
  end.

Definition re_split (s : str) : list token := re_split_loop s false [].

Definition process_line (line : str) (c : context)
  : option (context * list line_out) :=
  let line := rstrip line in
  match guess_prefix line with
  | None => None
  | Some prefix_ =>
      let words := re_split (skipn (length prefix_) line) in
      let all_whitespace := forallb is_whitespace words in
      let (c, flushed) :=
        if negb (str_eqb prefix_ (next_prefix (prefix c))) || all_whitespace
        then let (c', lines) := resolve_context c in (set_prefix prefix_ c', lines)
        else (c, []) in
      let c :=
        if code c
        then set_flow (negb (is_whitespace prefix_)) c
        else c in
      let (c', lines) := process_words words c in
      Some (c', flushed ++ lines)
  end.

(** ** The main loop (lines 247-256) *)

(** [input.readline()], repeated until it returns the empty string: the
    lines of the document, each with its newline (the last one may lack
    it). *)
Fixpoint readlines_loop (s cur : str) : list str :=
  match s with
  | [] => match cur with [] => [] | _ => [cur] end
  | c :: s' =>
      if ascii_eqb c newline then (cur ++ [c]) :: readlines_loop s' []
      else readlines_loop s' (cur ++ [c])
  end.

Definition readlines (s : str) : list str := readlines_loop s [].

Fixpoint process_lines (lines : list str) (c : context)
  : option (context * list line_out) :=
  match lines with
  | [] => Some (c, [])
  | line :: lines' =>
      match process_line line c with
      | None => None
      | Some (c1, out1) =>
          match process_lines lines' c1 with
          | None => None
          | Some (c2, out2) => Some (c2, out1 ++ out2)
          end
      end
  end.

(** The starting context of line 247. *)
Definition initial_context (flow_ justify_ code_ : bool) (width_ tabstop_ : Z)
  : context :=
  mkContext [] flow_ justify_ width_ tabstop_ code_ [].

(** One input file: every line, then the final [resolve_context]. *)
Definition format_lines (lines : list str) (c : context)
  : option (context * list line_out) :=
  match process_lines lines c with
  | None => None
  | Some (c1, out1) =>
      let (c2, out2) := resolve_context c1 in
      Some (c2, out1 ++ out2)
  end.

Definition format_document (doc : str) (c : context) : option str :=
  match format_lines (readlines doc) c with
  | None => None
  | Some (_, out) => Some (output_text out)
  end.


(** * Notions used in the statements *)

(** ** Packing *)

(** The column after the prefix and the first word (lines 148-151). *)
Definition start_cols (first : token) (c : context) : Z :=
  add_cols first (add_cols (prefix c) 0 c) c.

(** What the call does once the break point is known (lines 170-179), given
    the recursive call as [rec]. *)
Definition break_line (rec : list token -> context -> option (context * list line_out))
  (ws : list token) (k : nat) (c0 : context) : option (context * list line_out) :=
  let line := print_words_as_line (firstn k ws) c0 in
  let k' := skip_whitespace_words (skipn k ws) k in
  let c1 := set_prefix (next_prefix (prefix c0)) c0 in
  if (length ws <=? k')%nat then Some (c1, [line])
  else
    match rec (skipn k' ws) c1 with
    | Some (c', lines) => Some (c', line :: lines)
    | None => None
    end.

(** The context in which [process_line] calls [process_words], and the
    lines flushed before the call. *)
Definition line_context (prefix_ : str) (all_whitespace : bool) (c : context)
  : context * list line_out :=
  let (c, flushed) :=
    if negb (str_eqb prefix_ (next_prefix (prefix c))) || all_whitespace
    then let (c', lines) := resolve_context c in (set_prefix prefix_ c', lines)
    else (c, []) in
  (if code c then set_flow (negb (is_whitespace prefix_)) c else c, flushed).

(** ** Configurations and lines *)

(** The configuration of a run: the fields no function of the wrapper
    assigns. *)
Definition same_config (c c' : context) : Prop :=
  justify c' = justify c /\ width c' = width c /\
  tabstop c' = tabstop c /\ code c' = code c.

(** A physical line respects the width, or holds at most one word. *)
Definition fits (c : context) (l : line_out) : Prop :=
  add_cols (line_text l) 0 c <= width c \/ (length (lo_words l) <= 1)%nat.

(** A line of a document, with its newline. *)
Definition ln (s : string) : str := py s ++ [newline].

(** ** Binary64 rounding

    Names for the parts of [binary_round_aux] that the proofs about the
    filler index follow. *)

(** The exponent function of the format: [fexp e = max (e - 53) (-1074)]. *)
Definition fexp64 (e : Z) : Z := SpecFloat.fexp prec emax e.

(** The number of bits [shr_fexp] drops from a mantissa [m] at exponent
    [e]. *)
Definition round_shift (m e : Z) : Z := Z.max 0 (fexp64 (Zdigits2 m + e) - e).

(** A shift record whose round and sticky bits are clear: nothing was lost
    by the shifts so far. *)
Definition no_remainder (r : shr_record) : Prop := shr_r r = false /\ shr_s r = false.

(** [x] is a non-negative double of value at most [B]. *)
Definition at_most (x : spec_float) (B : Z) : Prop :=
  match x with
  | S754_zero _ => True
  | S754_finite false m e => e <= 0 /\ Zpos m <= B * 2 ^ (- e)
  | _ => False
  end.

(** ** The specification's wording of three claims *)

(** The expansion the specification describes: every tab is replaced by the
    spaces that lead from the running column, the column reached after the
    characters of the word already expanded, to the next tab stop. *)
Fixpoint expand_tabs_running (word : str) (col ts : Z) : str :=
  match word with
  | [] => []
  | char :: word' =>
      if ascii_eqb char tab
      then spaces (ts - col mod ts) ++ expand_tabs_running word' (col + (ts - col mod ts)) ts
      else char :: expand_tabs_running word' (col + 1) ts
  end.

(** The width bound in the words of the specification: a line may exceed
    the width only if it consists of a single token that is itself wider
    than the width. *)
Definition width_bound_as_stated (lines : list str) (c : context) : Prop :=
  forall c' out, format_lines lines c = Some (c', out) ->
    forall l, In l out ->
      add_cols (line_text l) 0 c <= width c \/
      exists tok, lo_words l = [tok] /\ width c < add_cols tok 0 c.

(** The claim as the specification states it: the pending words are
    flushed, then the line itself is written as its prefix alone. *)
Definition whitespace_line_as_stated (line : str) (c : context) : Prop :=
  forall p,
    guess_prefix (rstrip line) = Some p ->
    forallb is_whitespace (re_split (skipn (length p) (rstrip line))) = true ->
    exists c',
      process_line line c = Some (c', snd (resolve_context c) ++ [mkLine p []]).




(** ** Notions used in the further properties *)

(** The words of a list of tokens that are not whitespace words. *)
Definition real_words (ws : list token) : list token :=
  filter (fun w => negb (is_whitespace w)) ws.

(** The words [process_line] finds on a line, after its prefix. *)
Definition line_words (line : str) : list token :=
  match guess_prefix (rstrip line) with
  | Some p => real_words (re_split (skipn (length p) (rstrip line)))
  | None => []
  end.

Definition set_justify (j : bool) (c : context) : context :=
  mkContext (prefix c) (flow c) j (width c) (tabstop c) (code c) (underflow c).


(** A string that is empty or ends with a character that is not
    whitespace. *)
Definition ends_with_word (s : str) : Prop :=
  s = [] \/ exists init ch, s = init ++ [ch] /\ in_whitespace ch = false.

(** ** The command line (lines 211-233 and 247)

    What [argparse] hands to the script: the two numbers, whether an output
    file was given, and the four switches, which are [True] or absent. *)
Record arguments := mkArguments {
  args_width : Z;
  args_tabstop : Z;
  args_output : bool;
  args_overwrite : bool;
  args_flow : bool;
  args_justify : bool;
  args_code : bool
}.

(** The two exceptions of lines 228 and 230. *)
Inductive usage_error := OutputWithOverwrite | CodeWithFlow.

(** Lines 225-233 and the dictionary of line 247: whether the warning of
    line 226 is written, and the exception raised or the context every input
    file starts with. *)
Definition starting_context (args : arguments) : bool * (usage_error + context) :=
  let warning := args_justify args && args_flow args in
  (warning,
   if args_output args && args_overwrite args then inl OutputWithOverwrite
   else if args_code args && (args_flow args || args_justify args)
   then inl CodeWithFlow
   else
     let flow_ := if args_justify args then true else args_flow args in
     inr (mkContext [] flow_ (args_justify args) (args_width args)
            (args_tabstop args) (args_code args) [])).

(** The prefixes of the lines of one paragraph: the first line carries the
    prefix [p], every later line the continuation prefix. *)
Definition prefixes_of (p : str) (lines : list line_out) : Prop :=
  match lines with
  | [] => True
  | l :: ls => lo_prefix l = p /\ Forall (fun l' => lo_prefix l' = next_prefix p) ls
  end.

(** What [guess_prefix] puts after the indentation: nothing, a comment
    leader, or a bullet with the whitespace that follows it. *)
Definition is_marker (m : str) : Prop :=
  m = [] \/ m = py "// " \/ m = py "//" \/ m = py "# " \/ m = py "#" \/
  exists gap, m = "*"%char :: gap /\ is_whitespace gap = true.

(** A line whose first word after the prefix is not whitespace. *)
Definition starts_with_word (l : line_out) : Prop :=
  exists w rest, lo_words l = w :: rest /\ is_whitespace w = false.

(** * Properties *)

(** ** Strings and whitespace *)

Lemma ascii_eqb_eq (a b : ascii) : ascii_eqb a b = true <-> a = b.
Proof. apply Ascii.eqb_eq. Qed.

Lemma str_eqb_eq (a b : str) : str_eqb a b = true <-> a = b.
Proof.
  revert b; induction a as [|x a IH]; intros [|y b]; simpl; split;
    try congruence; try reflexivity.
  - rewrite andb_true_iff, ascii_eqb_eq, IH. intros [-> ->]. reflexivity.
  - intros E. injection E as -> ->. rewrite andb_true_iff, ascii_eqb_eq, IH. auto.
Qed.

Lemma slice_from_0 (b : nat) (s : str) : slice 0 b s = firstn b s.
Proof. unfold slice. rewrite Nat.sub_0_r. reflexivity. Qed.

Lemma firstn_initial (k : nat) (s : str) :
  exists k', (k' <= length s)%nat /\ firstn k s = firstn k' s.
Proof.
  destruct (Nat.le_gt_cases k (length s)) as [H|H].
  - exists k; auto.
  - exists (length s). split; [lia|].
    rewrite firstn_all, firstn_all2 by lia. reflexivity.
Qed.

(** The scan of leading whitespace stops inside the string as soon as the
    string has a character that is not whitespace. *)
Lemma skip_whitespace_chars_stops (rest : str) (i : nat) :
  (exists c, In c rest /\ in_whitespace c = false) ->
  (skip_whitespace_chars rest i < i + length rest)%nat.
Proof.
  revert i; induction rest as [|c rest IH]; intros i [x [Hin Hx]]; simpl in *.
  - contradiction.
  - destruct (in_whitespace c) eqn:Hc.
    + destruct Hin as [->|Hin]; [congruence|].
      specialize (IH (S i) (ex_intro _ x (conj Hin Hx))). lia.
    + lia.
Qed.

(** ** guess_prefix *)

Lemma guess_prefix_firstn (line : str) :
  line = [] \/ (exists c, In c line /\ in_whitespace c = false) ->
  exists k, guess_prefix line = Some (firstn k line).
Proof.
  intros H. unfold guess_prefix.
  destruct line as [|c0 line'] eqn:E.
  - exists 0%nat. reflexivity.
  - rewrite <- E in *. replace (Nat.eqb (length line) 0) with false
      by (subst line; reflexivity).
    destruct H as [H|H]; [subst line; discriminate|].
    pose proof (skip_whitespace_chars_stops line 0 H) as Hi. simpl in Hi.
    set (i := skip_whitespace_chars line 0) in *.
    rewrite !slice_from_0.
    destruct (str_eqb (slice i (i + 3) line) (py "// ")); [eexists; reflexivity|].
    destruct (str_eqb (slice i (i + 2) line) (py "//")); [eexists; reflexivity|].
    destruct (str_eqb (slice i (i + 2) line) (py "# ")); [eexists; reflexivity|].
    destruct (nth_error line i) as [c|] eqn:Hn.
    + destruct (ascii_eqb c "#").
      * destruct (str_eqb (firstn 7 line) (py "#ifndef")); [exists 0%nat; reflexivity|].
        destruct (str_eqb (firstn 6 line) (py "#ifdef")); [exists 0%nat; reflexivity|].
        destruct (str_eqb (firstn 6 line) (py "#endif")); [exists 0%nat; reflexivity|].
        eexists; reflexivity.
      * destruct (ascii_eqb c "*"); eexists; reflexivity.
    + apply nth_error_None in Hn. lia.
Qed.

(** C10: for a line that is empty or has a character that is not whitespace,
    the inferred prefix is an initial segment of the line: it is the first
    [k] characters for some [k] within the line, and putting it back in
    front of the remainder [line[len(prefix):]] that [process_line] hands to
    the tokenizer gives the line again. *)
Theorem guess_prefix_initial_segment (line : str) :
  line = [] \/ (exists c, In c line /\ in_whitespace c = false) ->
  exists k prefix_,
    (k <= length line)%nat /\
    guess_prefix line = Some prefix_ /\
    prefix_ = firstn k line /\
    prefix_ ++ skipn (length prefix_) line = line.
Proof.
  intros H. destruct (guess_prefix_firstn line H) as [k Hk].
  destruct (firstn_initial k line) as [k' [Hle Heq]].
  exists k', (firstn k' line).
  split; [assumption|]. split; [rewrite Hk, Heq; reflexivity|]. split; [reflexivity|].
  rewrite length_firstn, Nat.min_l by assumption. apply firstn_skipn.
Qed.

(** C10, witness: the bullet line ["  * item"]. *)
Lemma guess_prefix_initial_segment_witness :
  exists k prefix_,
    (k <= length (py "  * item"))%nat /\
    guess_prefix (py "  * item") = Some prefix_ /\
    prefix_ = firstn k (py "  * item") /\
    prefix_ ++ skipn (length prefix_) (py "  * item") = py "  * item".
Proof.
  apply (guess_prefix_initial_segment (py "  * item")).
  right. exists "i"%char. split; [simpl; tauto | reflexivity].
Defined.

(** A directive that starts in column 0 is protected, whatever follows
    it. *)
Lemma guess_prefix_directive_column_0 (rest : str) :
  guess_prefix (py "#ifndef" ++ rest) = Some [] /\
  guess_prefix (py "#ifdef" ++ rest) = Some [] /\
  guess_prefix (py "#endif" ++ rest) = Some [].
Proof. repeat split; reflexivity. Qed.

(** C5: the protection of preprocessor directives compares [line[0:7]] and
    [line[0:6]], not [line[i:i+7]] and [line[i:i+6]]: as soon as the
    directive is indented the comparison fails and the line gets the
    one-character comment prefix ["  #"], where the claim says the prefix is
    empty. *)
Theorem guess_prefix_indented_directive :
  guess_prefix (py "  #ifdef FOO") = Some (py "  #") /\
  guess_prefix (py "  #ifndef FOO") = Some (py "  #") /\
  guess_prefix (py "  #endif") = Some (py "  #").
Proof. repeat split; reflexivity. Qed.

(** ** retab *)

Lemma spaces_no_tab (n : Z) : ~ In tab (spaces n).
Proof.
  unfold spaces. intros H. apply repeat_spec in H. discriminate.
Qed.

(** The result of [retab] has no tab left. *)
Lemma retab_no_tab (word : str) (offset ts : Z) : ~ In tab (retab word offset ts).
Proof.
  induction word as [|c word IH]; simpl; [tauto|].
  intros H. apply in_app_or in H. destruct H as [H|H]; [|tauto].
  destruct (ascii_eqb c tab) eqn:E.
  - exact (spaces_no_tab _ H).
  - destruct H as [H|[]]. subst c. unfold ascii_eqb in E.
    rewrite Ascii.eqb_refl in E. discriminate.
Qed.

(** C6: [retab] measures every tab of a word from the column at which the
    word starts ([offset] is never advanced inside the loop, unlike
    [current_cols] in [add_cols]).  For the gap [" \t"] that starts in
    column 1 with tab stops every 8 columns, the tab is replaced by 7 spaces
    where 6 lead to the next tab stop: the expanded gap ends in column 9, the
    original one in column 8.  The gap is met in the line ["a \tb"] once it
    is justified (last equation: the second and the fourth word of the line
    are fillers, the third is the expanded gap). *)
Theorem retab_ignores_running_column :
  let c := initial_context true true false 12 8 in
  retab [space; tab] 1 8 = spaces 8 /\
  expand_tabs_running [space; tab] 1 8 = spaces 7 /\
  add_cols [space; tab] 1 c = 8 /\
  add_cols (retab [space; tab] 1 8) 1 c = 9 /\
  option_map snd
    (format_lines [py "a " ++ [tab] ++ py "b cccccccccc" ++ [newline]] c)
  = Some [mkLine [] [py "a"; [space]; spaces 8; [space]; py "b"];
          mkLine [] [py "cccccccccc"]].
Proof. repeat split; vm_compute; reflexivity. Qed.

(** ** Counting columns *)

(** The column count only reads the tab stop of the context. *)
Lemma add_cols_tabstop (w : str) (cols : Z) (c c' : context) :
  tabstop c = tabstop c' -> add_cols w cols c = add_cols w cols c'.
Proof. unfold add_cols. intros ->. reflexivity. Qed.

Section Columns.

Variable c : context.

Lemma add_cols_app (a b : str) (cols : Z) :
  add_cols (a ++ b) cols c = add_cols b (add_cols a cols c) c.
Proof. unfold add_cols. apply fold_left_app. Qed.


(** The columns used by a list of words written one after the other. *)
Lemma add_cols_concat_cons (w : token) (ws : list token) (cols : Z) :
  add_cols (concat (w :: ws)) cols c = add_cols (concat ws) (add_cols w cols c) c.
Proof. simpl. apply add_cols_app. Qed.

(** A string without tabs takes one column per character. *)
Lemma add_cols_no_tab (w : str) (cols : Z) :
  ~ In tab w -> add_cols w cols c = cols + Z.of_nat (length w).
Proof.
  unfold add_cols. revert cols.
  induction w as [|ch w IH]; intros cols H; simpl fold_left; [simpl; lia|].
  rewrite IH by (intros Hin; apply H; right; exact Hin).
  unfold add_char. destruct (ascii_eqb ch tab) eqn:E.
  - apply ascii_eqb_eq in E. subst ch. exfalso. apply H. left. reflexivity.
  - simpl length. lia.
Qed.

(** From here on the tab stops are positive. *)
Hypothesis tabstop_pos : 0 < tabstop c.

Lemma add_char_ge (cols : Z) (ch : ascii) :
  cols < add_char (tabstop c) cols ch.
Proof.
  unfold add_char. pose proof (Z.mod_pos_bound cols (tabstop c) tabstop_pos).
  destruct (ascii_eqb ch tab); lia.
Qed.

(** Every character moves to the right. *)
Lemma add_cols_ge (w : str) (cols : Z) :
  cols + Z.of_nat (length w) <= add_cols w cols c.
Proof.
  unfold add_cols. revert cols.
  induction w as [|ch w IH]; intros cols; simpl; [lia|].
  pose proof (add_char_ge cols ch). specialize (IH (add_char (tabstop c) cols ch)).
  lia.
Qed.

Lemma add_cols_le (w : str) (cols : Z) : cols <= add_cols w cols c.
Proof. pose proof (add_cols_ge w cols). lia. Qed.

(** The running expansion of the specification keeps the columns of the
    word. *)
Lemma expand_tabs_running_cols (word : str) (col : Z) :
  col + Z.of_nat (length (expand_tabs_running word col (tabstop c)))
  = add_cols word col c.
Proof.
  revert col. unfold add_cols.
  induction word as [|ch word IH]; intros col; simpl; [lia|].
  unfold add_char at 2.
  pose proof (Z.mod_pos_bound col (tabstop c) tabstop_pos) as Hm.
  destruct (ascii_eqb ch tab).
  - rewrite length_app. unfold spaces. rewrite repeat_length.
    rewrite <- IH. lia.
  - simpl length. rewrite <- IH. lia.
Qed.

End Columns.

(** ** The words that are printed *)

(** [printable_words] keeps an initial part of the words and drops the
    rest, which are whitespace words. *)
Lemma printable_words_split (words pending printed : list token) :
  forallb is_whitespace pending = true ->
  exists kept dropped,
    pending ++ words = kept ++ dropped /\
    printable_words words pending printed = printed ++ kept /\
    forallb is_whitespace dropped = true.
Proof.
  revert pending printed.
  induction words as [|w words IH]; intros pending printed Hp; simpl.
  - exists [], pending. rewrite !app_nil_r. auto.
  - destruct (is_whitespace w) eqn:Hw; simpl.
    + destruct (IH (pending ++ [w]) printed) as (kept & dropped & E1 & E2 & E3).
      { rewrite forallb_app, Hp. simpl. rewrite Hw. reflexivity. }
      exists kept, dropped. rewrite <- app_assoc in E1. simpl in E1. auto.
    + destruct (IH [] (printed ++ pending ++ [w]) eq_refl)
        as (kept & dropped & E1 & E2 & E3).
      exists (pending ++ [w] ++ kept), dropped. simpl in E1. repeat split.
      * rewrite E1. rewrite <- !app_assoc. reflexivity.
      * rewrite E2. rewrite <- !app_assoc. reflexivity.
      * exact E3.
Qed.

Lemma print_words_split (words : list token) :
  exists dropped,
    words = printable_words words [] [] ++ dropped /\
    forallb is_whitespace dropped = true.
Proof.
  destruct (printable_words_split words [] [] eq_refl)
    as (kept & dropped & E1 & E2 & E3).
  simpl in E1, E2. exists dropped. rewrite E2. auto.
Qed.

Lemma printable_words_length (words : list token) :
  (length (printable_words words [] []) <= length words)%nat.
Proof.
  destruct (print_words_split words) as (dropped & E & _).
  rewrite E at 2. rewrite length_app. lia.
Qed.

(** A list of whitespace words prints nothing. *)
Lemma printable_words_whitespace (words pending printed : list token) :
  forallb is_whitespace words = true ->
  printable_words words pending printed = printed.
Proof.
  revert pending. induction words as [|w words IH]; intros pending H; simpl in *.
  - reflexivity.
  - apply andb_true_iff in H. destruct H as [Hw H]. rewrite Hw. simpl. auto.
Qed.

(** A list that ends with a word is printed whole. *)
Lemma printable_words_all (words pending printed : list token) (w : token) :
  is_whitespace w = false ->
  printable_words (words ++ [w]) pending printed = printed ++ pending ++ words ++ [w].
Proof.
  intros Hw. revert pending printed.
  induction words as [|x words IH]; intros pending printed; simpl.
  - rewrite Hw. reflexivity.
  - destruct (is_whitespace x); simpl; rewrite IH.
    + rewrite <- !app_assoc. reflexivity.
    + rewrite <- !app_assoc. reflexivity.
Qed.

(** ** The packing loop *)

Lemma set_underflow_nil_id (c : context) :
  underflow c = [] -> set_underflow [] c = c.
Proof. destruct c; simpl; intros ->; reflexivity. Qed.

(** Lines 134-141 in one equation: the pending words are put in front and
    the field is emptied. *)
Lemma prepend_underflow_eq (words : list token) (c : context) :
  prepend_underflow words c = (underflow c ++ words, set_underflow [] c).
Proof.
  unfold prepend_underflow. destruct (underflow c) eqn:E.
  - rewrite set_underflow_nil_id by assumption. reflexivity.
  - reflexivity.
Qed.

Lemma process_words_fuel_step (fuel : nat) (words : list token) (c : context) :
  process_words_fuel (S fuel) words c =
  let ws := underflow c ++ words in
  let c0 := set_underflow [] c in
  match ws with
  | [] => Some (c0, [print_words_as_line [] c0])
  | first :: rest =>
      match find_overflow rest 1 (start_cols first c0) c0 with
      | None =>
          if flow c0 then Some (set_underflow (ws ++ [[space]]) c0, [])
          else Some (c0, [print_words_as_line ws c0])
      | Some k => break_line (process_words_fuel fuel) ws k c0
      end
  end.
Proof.
  cbn [process_words_fuel]. rewrite prepend_underflow_eq.
  cbv zeta. destruct (underflow c ++ words) as [|first rest]; [reflexivity|].
  unfold start_cols.
  replace (match prefix (set_underflow [] c) with
           | [] => 0
           | _ :: _ => add_cols (prefix (set_underflow [] c)) 0 (set_underflow [] c)
           end)
    with (add_cols (prefix (set_underflow [] c)) 0 (set_underflow [] c))
    by (destruct (prefix (set_underflow [] c)); reflexivity).
  reflexivity.
Qed.

Lemma find_overflow_range (rest : list token) (idx : nat) (cols : Z) (c : context) (k : nat) :
  find_overflow rest idx cols c = Some k ->
  (idx <= k < idx + length rest)%nat.
Proof.
  revert idx cols. induction rest as [|w rest IH]; intros idx cols; simpl.
  - discriminate.
  - destruct (add_cols w cols c >? width c).
    + intros E. injection E as <-. lia.
    + intros E. apply IH in E. lia.
Qed.

Lemma skip_whitespace_words_range (rest : list token) (idx : nat) :
  (idx <= skip_whitespace_words rest idx <= idx + length rest)%nat.
Proof.
  revert idx. induction rest as [|w rest IH]; intros idx; simpl.
  - lia.
  - destruct (is_whitespace w); [specialize (IH (S idx))|]; lia.
Qed.

(** The words that remain after a line break are fewer than the words
    before it: the break point is at least 1, as the first word is never
    tested against the width. *)
Lemma remaining_words_shorter (first : token) (rest : list token) (cols : Z)
  (c : context) (k : nat) :
  find_overflow rest 1 cols c = Some k ->
  let ws := first :: rest in
  let k' := skip_whitespace_words (skipn k ws) k in
  (1 <= k <= k')%nat /\ (length (skipn k' ws) < length ws)%nat.
Proof.
  intros E ws k'. apply find_overflow_range in E.
  pose proof (skip_whitespace_words_range (skipn k ws) k) as H. fold k' in H.
  split; [lia|]. rewrite length_skipn. subst ws. simpl length. lia.
Qed.

(** Termination: a call returns as soon as its fuel exceeds the number of
    words it has to pack. *)
Lemma process_words_fuel_enough (fuel : nat) :
  forall (words : list token) (c : context),
    (length (underflow c) + length words < fuel)%nat ->
    exists r, process_words_fuel fuel words c = Some r.
Proof.
  induction fuel as [|fuel IH]; intros words c Hlen; [lia|].
  rewrite process_words_fuel_step. cbv zeta.
  assert (Hws : length (underflow c ++ words) = (length (underflow c) + length words)%nat)
    by apply length_app.
  destruct (underflow c ++ words) as [|first rest] eqn:Ews; [eauto|].
  destruct (find_overflow rest 1 _ _) as [k|] eqn:Ek.
  - unfold break_line.
    destruct (remaining_words_shorter first rest _ _ _ Ek) as [Hk Hshort].
    cbv zeta in Hk, Hshort.
    destruct (length (first :: rest) <=? _)%nat; [eauto|].
    destruct (IH (skipn (skip_whitespace_words (skipn k (first :: rest)) k) (first :: rest))
                (set_prefix (next_prefix (prefix (set_underflow [] c))) (set_underflow [] c)))
      as [[c' lines] E].
    { simpl underflow. simpl plus. lia. }
    rewrite E. eauto.
  - destruct (flow (set_underflow [] c)); eauto.
Qed.

(** More fuel does not change the result. *)
Lemma process_words_fuel_more (fuel : nat) :
  forall (words : list token) (c : context) (r : context * list line_out) (fuel' : nat),
    process_words_fuel fuel words c = Some r ->
    (fuel <= fuel')%nat ->
    process_words_fuel fuel' words c = Some r.
Proof.
  induction fuel as [|fuel IH]; intros words c r fuel' E Hle; [discriminate|].
  destruct fuel' as [|fuel']; [lia|].
  rewrite process_words_fuel_step in *. cbv zeta in *.
  destruct (underflow c ++ words) as [|first rest]; [exact E|].
  destruct (find_overflow rest 1 _ _) as [k|]; [|exact E].
  unfold break_line in *.
  destruct (length (first :: rest) <=? _)%nat; [exact E|].
  destruct (process_words_fuel fuel _ _) as [[c' lines]|] eqn:E1; [|discriminate].
  rewrite (IH _ _ _ fuel' E1) by lia. exact E.
Qed.

(** [process_words] never runs out of fuel: it satisfies the recursive
    equation of the source. *)
Lemma process_words_eq (words : list token) (c : context) :
  process_words words c =
  let ws := underflow c ++ words in
  let c0 := set_underflow [] c in
  match ws with
  | [] => (c0, [print_words_as_line [] c0])
  | first :: rest =>
      match find_overflow rest 1 (start_cols first c0) c0 with
      | None =>
          if flow c0 then (set_underflow (ws ++ [[space]]) c0, [])
          else (c0, [print_words_as_line ws c0])
      | Some k =>
          let line := print_words_as_line (firstn k ws) c0 in
          let k' := skip_whitespace_words (skipn k ws) k in
          let c1 := set_prefix (next_prefix (prefix c0)) c0 in
          if (length ws <=? k')%nat then (c1, [line])
          else let (c', lines) := process_words (skipn k' ws) c1 in
               (c', line :: lines)
      end
  end.
Proof.
  unfold process_words at 1. rewrite process_words_fuel_step. cbv zeta.
  assert (Hws : length (underflow c ++ words) = (length (underflow c) + length words)%nat)
    by apply length_app.
  destruct (underflow c ++ words) as [|first rest] eqn:Ews; [reflexivity|].
  destruct (find_overflow rest 1 _ _) as [k|] eqn:Ek.
  - unfold break_line.
    destruct (remaining_words_shorter first rest _ _ _ Ek) as [Hk Hshort].
    cbv zeta in Hk, Hshort.
    destruct (length (first :: rest) <=? _)%nat; [reflexivity|].
    set (ws' := skipn (skip_whitespace_words (skipn k (first :: rest)) k) (first :: rest)) in *.
    set (c1 := set_prefix _ _).
    destruct (process_words_fuel_enough (S (length (underflow c1) + length ws')) ws' c1)
      as [r E]; [lia|].
    unfold process_words. rewrite E.
    rewrite (process_words_fuel_more _ _ _ _ (length (underflow c) + length words)%nat E).
    + destruct r. reflexivity.
    + subst c1. simpl underflow. simpl plus. lia.
  - destruct (flow (set_underflow [] c)); reflexivity.
Qed.

(** Induction on the number of words to pack, the measure that makes
    [process_words] terminate. *)
Lemma process_words_induction
  (P : list token -> context -> context * list line_out -> Prop) :
  (forall words c,
      (forall words' c',
          (length (underflow c' ++ words') < length (underflow c ++ words))%nat ->
          P words' c' (process_words words' c')) ->
      P words c (process_words words c)) ->
  forall words c, P words c (process_words words c).
Proof.
  intros Hstep words c.
  remember (length (underflow c ++ words)) as n eqn:En.
  revert words c En. induction n as [n IH] using lt_wf_ind.
  intros words c En. apply Hstep. intros words' c' Hlt.
  apply (IH (length (underflow c' ++ words'))); [lia | reflexivity].
Qed.

(** Discharges the side condition of the induction: the recursive call
    packs fewer words. *)
Ltac words_decrease :=
  match goal with
  | Ek : find_overflow ?rest 1 _ _ = Some _ |- context [?first :: ?rest] =>
      let Hm := fresh "Hm" in
      destruct (remaining_words_shorter first rest _ _ _ Ek) as [_ Hm];
      cbv zeta in Hm; simpl in Hm |- *; try rewrite length_app in *;
      simpl in Hm |- *; lia
  end.

(** *** What the scan for the break point establishes *)

(** At the break point [k = idx + n], the [n] words scanned before it fit in
    the width (when there are any). *)
Lemma find_overflow_some (rest : list token) (idx : nat) (cols : Z) (c : context) (k : nat) :
  find_overflow rest idx cols c = Some k ->
  exists n, k = (idx + n)%nat /\ (n < length rest)%nat /\
    (n = 0%nat \/ add_cols (concat (firstn n rest)) cols c <= width c) /\
    width c < add_cols (concat (firstn (S n) rest)) cols c.
Proof.
  revert idx cols. induction rest as [|w rest IH]; intros idx cols; simpl find_overflow.
  - discriminate.
  - destruct (add_cols w cols c >? width c) eqn:E.
    + intros H. injection H as <-. apply Z.gtb_lt in E. exists 0%nat.
      split; [lia|]. split; [simpl; lia|]. split; [left; reflexivity|].
      simpl. rewrite app_nil_r. exact E.
    + intros H. apply IH in H. destruct H as (n & -> & Hn & Hfit & Hover).
      assert (E' : add_cols w cols c <= width c).
      { destruct (Z.gtb_spec (add_cols w cols c) (width c)); [discriminate | lia]. }
      exists (S n). split; [lia|]. split; [simpl; lia|]. split.
      * right. rewrite firstn_cons, add_cols_concat_cons.
        destruct Hfit as [->|Hfit]; [simpl; exact E' | exact Hfit].
      * rewrite firstn_cons, add_cols_concat_cons. exact Hover.
Qed.

(** When the scan finds no break point, all the words fit in the width
    (when there are any beyond the first). *)
Lemma find_overflow_none (rest : list token) (idx : nat) (cols : Z) (c : context) :
  find_overflow rest idx cols c = None ->
  rest = [] \/ add_cols (concat rest) cols c <= width c.
Proof.
  revert idx cols. induction rest as [|w rest IH]; intros idx cols; simpl find_overflow.
  - auto.
  - destruct (Z.gtb_spec (add_cols w cols c) (width c)) as [E|E]; [discriminate|].
    intros H. right. rewrite add_cols_concat_cons.
    destruct (IH _ _ H) as [->|Hfit]; [simpl; exact E | exact Hfit].
Qed.

(** ** The width bound *)

Lemma fits_config (c c' : context) (l : line_out) :
  tabstop c = tabstop c' -> width c = width c' -> fits c l -> fits c' l.
Proof.
  unfold fits. intros Ht Hw. rewrite (add_cols_tabstop _ _ c c' Ht), Hw. tauto.
Qed.

(** Without justification a line is the prefix and the printable words. *)
Lemma print_words_as_line_plain (words : list token) (c : context) :
  justify c && flow c = false ->
  print_words_as_line words c = mkLine (prefix c) (printable_words words [] []).
Proof. unfold print_words_as_line. intros ->. reflexivity. Qed.

(** A slice whose words fit, prefix included, is printed as a line that
    fits; so is a slice of at most one word. *)
Lemma print_words_as_line_fits (words : list token) (c : context) :
  justify c = false ->
  0 < tabstop c ->
  add_cols (concat words) (add_cols (prefix c) 0 c) c <= width c
    \/ (length words <= 1)%nat ->
  fits c (print_words_as_line words c).
Proof.
  intros Hj Hts H.
  rewrite print_words_as_line_plain by (rewrite Hj; reflexivity).
  unfold fits, line_text. simpl.
  destruct H as [H|H].
  - left. destruct (print_words_split words) as (dropped & E & _).
    rewrite E, concat_app, add_cols_app in H. rewrite add_cols_app.
    pose proof (add_cols_le c Hts (concat dropped)
                  (add_cols (concat (printable_words words [] []))
                     (add_cols (prefix c) 0 c) c)).
    lia.
  - right. pose proof (printable_words_length words). lia.
Qed.

Lemma same_config_refl (c : context) : same_config c c.
Proof. repeat split. Qed.

Lemma same_config_trans (a b c : context) :
  same_config a b -> same_config b c -> same_config a c.
Proof. unfold same_config. intuition congruence. Qed.

(** [process_words] keeps the configuration and the flow mode. *)
Lemma process_words_config (words : list token) (c : context) :
  same_config c (fst (process_words words c)) /\
  flow (fst (process_words words c)) = flow c.
Proof.
  apply (process_words_induction
           (fun words c r => same_config c (fst r) /\ flow (fst r) = flow c)).
  clear words c. intros words c IH.
  rewrite process_words_eq. cbv zeta.
  destruct (underflow c ++ words) as [|first rest] eqn:Ews.
  - simpl. split; [repeat split | reflexivity].
  - destruct (find_overflow rest 1 _ _) as [k|] eqn:Ek.
    + destruct (length (first :: rest) <=? _)%nat.
      * simpl. split; [repeat split | reflexivity].
      * match goal with
        | |- context [process_words ?w ?c1] =>
            specialize (IH w c1); destruct (process_words w c1) as [c' lines]
        end.
        simpl in *. apply IH. words_decrease.
    + destruct (flow (set_underflow [] c)) eqn:Ef; simpl in *;
        (split; [repeat split | auto]).
Qed.

(** Every line written by [process_words] outside justify mode fits. *)
Lemma process_words_fits (words : list token) (c : context) :
  justify c = false -> 0 < tabstop c ->
  Forall (fits c) (snd (process_words words c)).
Proof.
  apply (process_words_induction
           (fun words c r => justify c = false -> 0 < tabstop c ->
                             Forall (fits c) (snd r))).
  clear words c. intros words c IH Hj Hts.
  rewrite process_words_eq. cbv zeta.
  set (c0 := set_underflow [] c).
  assert (Hj0 : justify c0 = false) by exact Hj.
  assert (Hts0 : 0 < tabstop c0) by exact Hts.
  assert (Hc0 : forall l, fits c0 l -> fits c l)
    by (intros l; apply fits_config; reflexivity).
  destruct (underflow c ++ words) as [|first rest] eqn:Ews.
  - simpl. constructor; [|constructor]. apply Hc0.
    apply print_words_as_line_fits; [exact Hj0 | exact Hts0 |]. right. simpl. lia.
  - destruct (find_overflow rest 1 _ _) as [k|] eqn:Ek.
    + assert (Hline : fits c (print_words_as_line (firstn k (first :: rest)) c0)).
      { apply Hc0. apply print_words_as_line_fits; [exact Hj0 | exact Hts0 |].
        apply find_overflow_some in Ek.
        destruct Ek as (n & -> & Hn & Hfit & _). simpl firstn.
        destruct Hfit as [->|Hfit].
        - right. simpl. lia.
        - left. rewrite add_cols_concat_cons. exact Hfit. }
      destruct (length (first :: rest) <=? _)%nat.
      * simpl. constructor; [exact Hline | constructor].
      * match goal with
        | |- context [process_words ?w ?c1] =>
            specialize (IH w c1); destruct (process_words w c1) as [c' lines]
        end.
        simpl in *. constructor; [exact Hline|].
        assert (Hrec : Forall (fits (set_prefix (next_prefix (prefix c)) c0)) lines).
        { apply IH; auto. words_decrease. }
        eapply Forall_impl; [|exact Hrec].
        intros l. apply fits_config; reflexivity.
    + destruct (flow c0) eqn:Ef; simpl; [constructor|].
      constructor; [|constructor]. apply Hc0.
      apply print_words_as_line_fits; [exact Hj0 | exact Hts0 |].
      apply find_overflow_none in Ek. destruct Ek as [->|Hfit].
      * right. simpl. lia.
      * left. rewrite add_cols_concat_cons. exact Hfit.
Qed.

Lemma fits_same_config (c c' : context) (l : line_out) :
  same_config c c' -> fits c' l -> fits c l.
Proof.
  intros (_ & Hw & Ht & _). apply fits_config; assumption.
Qed.

Lemma Forall_fits_same_config (c c' : context) (out : list line_out) :
  same_config c c' -> Forall (fits c') out -> Forall (fits c) out.
Proof.
  intros H. apply Forall_impl. intros l. apply fits_same_config. exact H.
Qed.

(** ** resolve_context *)

Lemma resolve_context_config (c : context) :
  same_config c (fst (resolve_context c)).
Proof.
  unfold resolve_context. destruct (underflow c) as [|w u]; [apply same_config_refl|].
  pose proof (process_words_config [] (set_flow false c)) as [H _].
  destruct (process_words [] (set_flow false c)) as [c' lines]. simpl in *.
  exact H.
Qed.

Lemma resolve_context_fits (c : context) :
  justify c = false -> 0 < tabstop c ->
  Forall (fits c) (snd (resolve_context c)).
Proof.
  intros Hj Hts. unfold resolve_context.
  destruct (underflow c) as [|w u]; [constructor|].
  pose proof (process_words_fits [] (set_flow false c) Hj Hts) as H.
  destruct (process_words [] (set_flow false c)) as [c' lines]. simpl in *.
  eapply Forall_impl; [|exact H]. intros l. apply fits_config; reflexivity.
Qed.

(** ** process_line *)

(** A right-stripped line is empty or has a character that is not
    whitespace (its last one). *)
Lemma rstrip_shape (s : str) :
  rstrip s = [] \/ exists ch, In ch (rstrip s) /\ in_whitespace ch = false.
Proof.
  induction s as [|ch s IH]; simpl; [auto|].
  destruct (rstrip s) as [|x r] eqn:E.
  - destruct (in_whitespace ch) eqn:Hc; [auto|].
    right. exists ch. simpl. auto.
  - right. destruct IH as [IH|[y [Hin Hy]]]; [discriminate|].
    exists y. split; [right; exact Hin | exact Hy].
Qed.

(** [guess_prefix] never raises on a right-stripped line. *)
Lemma guess_prefix_rstrip (line : str) :
  exists k, guess_prefix (rstrip line) = Some (firstn k (rstrip line)).
Proof. apply guess_prefix_firstn. apply rstrip_shape. Qed.

(** [process_line] always returns. *)
Lemma process_line_total (line : str) (c : context) :
  exists r, process_line line c = Some r.
Proof.
  unfold process_line. destruct (guess_prefix_rstrip line) as [k ->].
  cbv zeta.
  repeat match goal with
         | |- context [let (_, _) := ?x in _] => destruct x
         end.
  eauto.
Qed.

Lemma process_line_eq (line : str) (c : context) :
  process_line line c =
  match guess_prefix (rstrip line) with
  | None => None
  | Some prefix_ =>
      let words := re_split (skipn (length prefix_) (rstrip line)) in
      let (c1, flushed) := line_context prefix_ (forallb is_whitespace words) c in
      let (c', lines) := process_words words c1 in
      Some (c', flushed ++ lines)
  end.
Proof.
  unfold process_line, line_context.
  destruct (guess_prefix (rstrip line)) as [p|]; [|reflexivity].
  cbv zeta.
  destruct (negb (str_eqb p (next_prefix (prefix c))) || _).
  - destruct (resolve_context c) as [c1 flushed]. reflexivity.
  - reflexivity.
Qed.

Lemma line_context_config (p : str) (aw : bool) (c : context) :
  same_config c (fst (line_context p aw c)).
Proof.
  unfold line_context.
  destruct (negb (str_eqb p (next_prefix (prefix c))) || aw).
  - pose proof (resolve_context_config c) as H.
    destruct (resolve_context c) as [c1 flushed]. simpl in *.
    destruct (code c1); exact H.
  - destruct (code c); simpl; repeat split.
Qed.

Lemma line_context_fits (p : str) (aw : bool) (c : context) :
  justify c = false -> 0 < tabstop c ->
  Forall (fits c) (snd (line_context p aw c)).
Proof.
  intros Hj Hts. unfold line_context.
  destruct (negb (str_eqb p (next_prefix (prefix c))) || aw).
  - pose proof (resolve_context_fits c Hj Hts) as H.
    destruct (resolve_context c) as [c1 flushed]. simpl in *. exact H.
  - simpl. constructor.
Qed.

Lemma process_line_fits (line : str) (c c' : context) (out : list line_out) :
  justify c = false -> 0 < tabstop c ->
  process_line line c = Some (c', out) ->
  same_config c c' /\ Forall (fits c) out.
Proof.
  intros Hj Hts. rewrite process_line_eq.
  destruct (guess_prefix (rstrip line)) as [p|]; [|discriminate]. cbv zeta.
  pose proof (line_context_config p (forallb is_whitespace
                (re_split (skipn (length p) (rstrip line)))) c) as Hc1.
  pose proof (line_context_fits p (forallb is_whitespace
                (re_split (skipn (length p) (rstrip line)))) c Hj Hts) as Hf1.
  destruct (line_context p _ c) as [c1 flushed]. simpl in Hc1, Hf1.
  pose proof (process_words_config (re_split (skipn (length p) (rstrip line))) c1)
    as [Hc2 _].
  assert (Hj1 : justify c1 = false) by (destruct Hc1 as (-> & _); exact Hj).
  assert (Hts1 : 0 < tabstop c1) by (destruct Hc1 as (_ & _ & -> & _); exact Hts).
  pose proof (process_words_fits (re_split (skipn (length p) (rstrip line))) c1 Hj1 Hts1)
    as Hf2.
  destruct (process_words _ c1) as [c2 lines]. simpl in Hc2, Hf2.
  intros E. injection E as <- <-. split.
  - eapply same_config_trans; eassumption.
  - apply Forall_app. split; [exact Hf1|].
    eapply Forall_fits_same_config; eassumption.
Qed.

Lemma process_lines_total (lines : list str) (c : context) :
  exists r, process_lines lines c = Some r.
Proof.
  revert c. induction lines as [|line lines IH]; intros c; simpl; [eauto|].
  destruct (process_line_total line c) as [[c1 out1] ->].
  destruct (IH c1) as [[c2 out2] ->]. eauto.
Qed.

Lemma process_lines_fits (lines : list str) :
  forall (c c' : context) (out : list line_out),
    justify c = false -> 0 < tabstop c ->
    process_lines lines c = Some (c', out) ->
    same_config c c' /\ Forall (fits c) out.
Proof.
  induction lines as [|line lines IH]; intros c c' out Hj Hts; simpl.
  - intros E. injection E as <- <-. split; [apply same_config_refl | constructor].
  - destruct (process_line line c) as [[c1 out1]|] eqn:E1; [|discriminate].
    destruct (process_lines lines c1) as [[c2 out2]|] eqn:E2; [|discriminate].
    intros E. injection E as <- <-.
    destruct (process_line_fits line c c1 out1 Hj Hts E1) as [Hc1 Hf1].
    assert (Hj1 : justify c1 = false) by (destruct Hc1 as (-> & _); exact Hj).
    assert (Hts1 : 0 < tabstop c1) by (destruct Hc1 as (_ & _ & -> & _); exact Hts).
    destruct (IH c1 c2 out2 Hj1 Hts1 E2) as [Hc2 Hf2]. split.
    + eapply same_config_trans; eassumption.
    + apply Forall_app. split; [exact Hf1|].
      eapply Forall_fits_same_config; eassumption.
Qed.

(** The formatter returns on every document. *)
Lemma format_lines_total (lines : list str) (c : context) :
  exists c' out, format_lines lines c = Some (c', out).
Proof.
  unfold format_lines. destruct (process_lines_total lines c) as [[c1 out1] ->].
  destruct (resolve_context c1) as [c2 out2]. eauto.
Qed.

(** C1, counterexample: with [width = 5] the line ["    abc"] is written
    back unchanged.  It takes 7 columns and consists of the prefix (the
    indentation) and one token, [abc], which is 3 columns wide. *)
Lemma width_bound_counterexample :
  ~ width_bound_as_stated [py "    abc" ++ [newline]]
      (initial_context false false false 5 8).
Proof.
  intros H.
  assert (E : exists c', format_lines [py "    abc" ++ [newline]]
                (initial_context false false false 5 8)
              = Some (c', [mkLine (py "    ") [py "abc"]]))
    by (eexists; vm_compute; reflexivity).
  destruct E as [c' E].
  destruct (H _ _ E (mkLine (py "    ") [py "abc"]) (or_introl eq_refl))
    as [Hle | (tok & Etok & Hlt)].
  - apply Hle. reflexivity.
  - injection Etok as <-. vm_compute in Hlt. discriminate.
Qed.

(** C1, as amended: outside justify mode, every physical line either fits
    in [width] columns (tabs counted by tab stops, the prefix included) or
    holds at most one word, the first word of the line, which is placed
    without being tested against the width. *)
Theorem width_bound (lines : list str) (c : context) :
  justify c = false -> 0 < tabstop c ->
  exists c' out,
    format_lines lines c = Some (c', out) /\
    forall l, In l out ->
      add_cols (line_text l) 0 c <= width c \/ (length (lo_words l) <= 1)%nat.
Proof.
  intros Hj Hts. unfold format_lines.
  destruct (process_lines_total lines c) as [[c1 out1] E1]. rewrite E1.
  destruct (process_lines_fits lines c c1 out1 Hj Hts E1) as [Hc1 Hf1].
  assert (Hj1 : justify c1 = false) by (destruct Hc1 as (-> & _); exact Hj).
  assert (Hts1 : 0 < tabstop c1) by (destruct Hc1 as (_ & _ & -> & _); exact Hts).
  pose proof (resolve_context_fits c1 Hj1 Hts1) as Hf2.
  destruct (resolve_context c1) as [c2 out2]. simpl in Hf2.
  exists c2, (out1 ++ out2). split; [reflexivity|].
  assert (Hall : Forall (fits c) (out1 ++ out2)).
  { apply Forall_app. split; [exact Hf1|].
    eapply Forall_fits_same_config; eassumption. }
  rewrite Forall_forall in Hall. exact Hall.
Qed.

(** C1, witness: the example of the specification, [width = 10]. *)
Lemma width_bound_witness :
  exists c' out,
    format_lines [py "hello world foo" ++ [newline]]
      (initial_context false false false 10 8) = Some (c', out) /\
    forall l, In l out ->
      add_cols (line_text l) 0 (initial_context false false false 10 8) <= 10
      \/ (length (lo_words l) <= 1)%nat.
Proof.
  apply (width_bound [py "hello world foo" ++ [newline]]
           (initial_context false false false 10 8)).
  - reflexivity.
  - simpl. lia.
Defined.

(** ** Termination of the packing routine *)





(** ** The underflow field *)

(** A call consumes the pending words: it behaves as a call on the pending
    words followed by the new ones, with an empty field. *)
Lemma process_words_consumes_underflow (words : list token) (c : context) :
  process_words words c = process_words (underflow c ++ words) (set_underflow [] c).
Proof.
  rewrite (process_words_eq words c).
  rewrite (process_words_eq (underflow c ++ words) (set_underflow [] c)).
  reflexivity.
Qed.

(** Words are left pending only by a call made in flow mode. *)
Lemma process_words_underflow_flow (words : list token) (c : context) :
  underflow (fst (process_words words c)) <> [] -> flow c = true.
Proof.
  apply (process_words_induction
           (fun words c r => underflow (fst r) <> [] -> flow c = true)).
  clear words c. intros words c IH.
  rewrite process_words_eq. cbv zeta.
  destruct (underflow c ++ words) as [|first rest] eqn:Ews.
  - simpl. congruence.
  - destruct (find_overflow rest 1 _ _) as [k|] eqn:Ek.
    + destruct (length (first :: rest) <=? _)%nat.
      * simpl. congruence.
      * match goal with
        | |- context [process_words ?w ?c1] =>
            specialize (IH w c1); destruct (process_words w c1) as [c' lines]
        end.
        simpl in *. apply IH. words_decrease.
    + destruct (flow (set_underflow [] c)) eqn:Ef; simpl in *; congruence.
Qed.

Lemma process_words_no_flow (words : list token) (c : context) :
  flow c = false -> underflow (fst (process_words words c)) = [].
Proof.
  intros Hf. destruct (underflow (fst (process_words words c))) eqn:E; [reflexivity|].
  assert (H : flow c = true)
    by (apply (process_words_underflow_flow words); rewrite E; discriminate).
  congruence.
Qed.

(** The flush leaves nothing pending. *)
Lemma resolve_context_clears (c : context) :
  underflow (fst (resolve_context c)) = [].
Proof.
  unfold resolve_context. destruct (underflow c) as [|w u] eqn:E; [exact E|].
  pose proof (process_words_no_flow [] (set_flow false c) eq_refl) as H.
  destruct (process_words [] (set_flow false c)) as [c' lines]. exact H.
Qed.


(** ** Lines that are empty after their prefix *)

Lemma re_split_loop_concat (s : str) (in_gap : bool) (cur : str) :
  concat (re_split_loop s in_gap cur) = cur ++ s.
Proof.
  revert in_gap cur. induction s as [|ch s IH]; intros in_gap cur; simpl.
  - destruct in_gap; simpl; rewrite ?app_nil_r; reflexivity.
  - destruct (Bool.eqb (in_whitespace ch) in_gap); simpl; rewrite IH.
    + rewrite <- app_assoc. reflexivity.
    + reflexivity.
Qed.

(** The tokens of a string, put together, are the string. *)
Lemma re_split_concat (s : str) : concat (re_split s) = s.
Proof. apply re_split_loop_concat. Qed.

Lemma forallb_concat (ws : list token) :
  forallb is_whitespace ws = true -> is_whitespace (concat ws) = true.
Proof.
  unfold is_whitespace. induction ws as [|w ws IH]; simpl; [reflexivity|].
  intros H. apply andb_true_iff in H. destruct H as [Hw H].
  rewrite forallb_app, Hw, IH by assumption. reflexivity.
Qed.

(** Whatever is cut from the front of a right-stripped line, the rest is
    empty or has a character that is not whitespace. *)
Lemma skipn_rstrip_shape (s : str) :
  forall n, skipn n (rstrip s) = [] \/
            exists ch, In ch (skipn n (rstrip s)) /\ in_whitespace ch = false.
Proof.
  induction s as [|c s IH]; intros n.
  - left. destruct n; reflexivity.
  - destruct n as [|n]; [apply rstrip_shape|].
    simpl rstrip. destruct (rstrip s) as [|x r] eqn:E.
    + left. destruct (in_whitespace c); destruct n; reflexivity.
    + simpl skipn. apply IH.
Qed.

(** When all the tokens after the prefix are whitespace there is exactly one
    token, the empty one. *)
Lemma all_whitespace_words (line : str) (n : nat) :
  forallb is_whitespace (re_split (skipn n (rstrip line))) = true ->
  re_split (skipn n (rstrip line)) = [[]].
Proof.
  intros H. apply forallb_concat in H. rewrite re_split_concat in H.
  destruct (skipn_rstrip_shape line n) as [->|(ch & Hin & Hch)]; [reflexivity|].
  unfold is_whitespace in H. rewrite forallb_forall in H.
  rewrite (H ch Hin) in Hch. discriminate.
Qed.

(** Without flow, a call of [process_words] writes at least one line. *)
Lemma process_words_emits (words : list token) (c : context) :
  flow c = false -> snd (process_words words c) <> [].
Proof.
  intros Hf. rewrite process_words_eq. cbv zeta.
  destruct (underflow c ++ words) as [|first rest]; [discriminate|].
  destruct (find_overflow rest 1 _ _) as [k|].
  - destruct (length (first :: rest) <=? _)%nat; [discriminate|].
    destruct (process_words _ _). discriminate.
  - simpl flow. rewrite Hf. discriminate.
Qed.

(** The packing of the single empty token. *)
Lemma process_words_empty_token (c : context) :
  underflow c = [] ->
  process_words [[]] c =
  if flow c then (set_underflow [[]; [space]] c, [])
  else (c, [mkLine (prefix c) []]).
Proof.
  intros Hu. rewrite process_words_eq. cbv zeta. rewrite Hu.
  rewrite (set_underflow_nil_id c Hu). simpl.
  destruct (flow c) eqn:Hf; [reflexivity|].
  rewrite print_words_as_line_plain by (rewrite Hf; apply andb_false_r).
  reflexivity.
Qed.

(** C3: in flow mode a blank line is not written.  The words of an empty
    line are the single empty token ([re.split] never returns the empty
    list), so the branch of lines 143-145, which writes the prefix alone, is
    not taken: [process_words] treats the empty token as a word that fits
    and, in flow mode, defers it (lines 156-161).  The pending words of the
    paragraph before are flushed, as the claim says, but the blank line
    itself is never written, and the paragraph after it is packed behind the
    pending empty token and its space: the two paragraphs of ["a"], [""],
    ["b"] come out as the lines ["a"] and [" b"]. *)
Theorem blank_line_lost_in_flow_mode :
  let c := initial_context true false false 80 8 in
  let blank := mkLine [] [] in
  (* the blank line, met while the words of ["a"] are pending *)
  (exists c1 c2,
      process_line (ln "a") c = Some (c1, []) /\
      underflow c1 = [py "a"; [space]] /\
      process_line (ln "") c1 = Some (c2, [mkLine [] [py "a"]]) /\
      underflow c2 = [[]; [space]]) /\
  ~ whitespace_line_as_stated (ln "") c /\
  (* the whole document *)
  format_lines [ln "a"; ln ""; ln "b"] c
  = Some (set_underflow [] c, [mkLine [] [py "a"]; mkLine [] [[]; [space]; py "b"]]) /\
  format_document (ln "a" ++ ln "" ++ ln "b") c = Some (ln "a" ++ ln " b") /\
  format_document (ln "a" ++ ln "" ++ ln "b") c
  <> Some (output_text [mkLine [] [py "a"]; blank; mkLine [] [py "b"]]).
Proof.
  cbv zeta. split; [|split; [|split; [|split]]].
  - eexists _, _. repeat split; vm_compute; reflexivity.
  - intros H. destruct (H [] eq_refl eq_refl) as [c' E].
    vm_compute in E. discriminate.
  - vm_compute. reflexivity.
  - vm_compute. reflexivity.
  - vm_compute. discriminate.
Qed.

(** ** Reformatting the output *)

(** C4: formatting is not idempotent, even without flow and justification.
    With [width = 8] the bullet ["* aaa bbb ccc"] is wrapped into a bullet
    line and two continuation lines indented under it.  Formatting that
    output again turns the continuation lines into bullets: their prefix is
    what [next_prefix] expects after the bullet, so [process_line] keeps the
    prefix ["* "] of the context, and [process_words], which without flow
    writes each line at once, writes it in front of them. *)
Theorem reformat_not_idempotent :
  let c := initial_context false false false 8 8 in
  let once := (ln "* aaa" ++ ln "  bbb" ++ ln "  ccc") in
  let twice := (ln "* aaa" ++ ln "* bbb" ++ ln "* ccc") in
  format_document (ln "* aaa bbb ccc") c = Some once /\
  format_document once c = Some twice /\
  once <> twice.
Proof.
  repeat split; try (vm_compute; reflexivity). vm_compute. discriminate.
Qed.

(** The same happens on a first pass: a continuation line that needs no
    wrapping is given the bullet of the line above it. *)
Lemma continuation_line_gets_bullet :
  format_document (ln "* aaa" ++ ln "  bbb") (initial_context false false false 80 8)
  = Some (ln "* aaa" ++ ln "* bbb").
Proof. vm_compute. reflexivity. Qed.

(** A second way to lose idempotence: a prefix that ends with a space is
    written alone, with its trailing space, when the text after it starts
    with a gap that is followed by the break point; [process_line] strips
    that space when it reads the line again. *)
Lemma prefix_line_loses_trailing_space :
  let c := initial_context false false false 5 8 in
  format_document (ln "#  foo") c = Some (ln "# " ++ ln "# foo") /\
  format_document (ln "# " ++ ln "# foo") c = Some (ln "#" ++ ln "# foo").
Proof. split; vm_compute; reflexivity. Qed.

(** ** The filler index in binary64 arithmetic

    The index of line 107 is computed with one division, one multiplication
    and one subtraction of doubles.  Each of them is followed through
    [binary_round_aux]: the quotient of [i < deficit] is at most 1, its
    product with [original_words - 2] is at most [original_words - 2], and
    the difference from [original_words - 1] is at least 1. *)

Module Binary64.

(** The number of binary digits of a positive number. *)
Lemma digits2_pos_log2 (p : positive) :
  Zpos (digits2_pos p) = Z.log2 (Zpos p) + 1.
Proof.
  induction p as [p IH|p IH|]; simpl; try reflexivity.
  - destruct p; simpl in *; lia.
  - destruct p; simpl in *; lia.
Qed.

(** A number of [k] digits lies between [2^(k-1)] and [2^k]. *)
Lemma Zdigits2_bounds (m : Z) :
  0 < m -> 2 ^ (Zdigits2 m - 1) <= m < 2 ^ Zdigits2 m.
Proof.
  intros H. destruct m as [|p|p]; try lia.
  unfold Zdigits2. rewrite digits2_pos_log2.
  replace (Z.log2 (Z.pos p) + 1 - 1) with (Z.log2 (Z.pos p)) by lia.
  pose proof (Z.log2_spec (Z.pos p) H).
  replace (Z.log2 (Z.pos p) + 1) with (Z.succ (Z.log2 (Z.pos p))) by lia. lia.
Qed.

Lemma Zdigits2_pos (m : Z) : 0 < m -> 0 < Zdigits2 m.
Proof. destruct m; simpl; lia. Qed.

Lemma Zdigits2_le (m k : Z) : 0 < m -> m < 2 ^ k -> Zdigits2 m <= k.
Proof.
  intros Hm H. pose proof (Zdigits2_bounds m Hm) as [Hlo _].
  destruct (Z.le_gt_cases (Zdigits2 m) k) as [|Hgt]; [assumption|].
  assert (2 ^ k <= 2 ^ (Zdigits2 m - 1)).
  { apply Z.pow_le_mono_r; lia. }
  lia.
Qed.

(** Powers of two along the binary representation of the exponent. *)
Lemma pow2_xI (p : positive) : 2 ^ Z.pos p~1 = 2 * (2 ^ Z.pos p * 2 ^ Z.pos p).
Proof.
  assert (E : Z.pos p~1 = Z.pos p + Z.pos p + 1) by lia. rewrite E.
  rewrite !Z.pow_add_r by lia. lia.
Qed.

Lemma pow2_xO (p : positive) : 2 ^ Z.pos p~0 = 2 ^ Z.pos p * 2 ^ Z.pos p.
Proof.
  assert (E : Z.pos p~0 = Z.pos p + Z.pos p) by lia. rewrite E.
  rewrite !Z.pow_add_r by lia. lia.
Qed.

(** One shift to the right halves the mantissa. *)
Lemma shr_1_m (r : shr_record) : 0 <= shr_m r -> shr_m (shr_1 r) = shr_m r / 2.
Proof.
  destruct r as [m r s]. simpl. intros H.
  destruct m as [|[p|p|]|p]; simpl; try reflexivity; try lia.
  - rewrite Pos2Z.inj_xI. apply Z.div_unique with 1; lia.
  - rewrite Pos2Z.inj_xO. apply Z.div_unique with 0; lia.
Qed.

Lemma shr_1_nonneg (r : shr_record) : 0 <= shr_m r -> 0 <= shr_m (shr_1 r).
Proof. intros H. rewrite shr_1_m by assumption. apply Z.div_pos; lia. Qed.

(** [p] shifts to the right divide the mantissa by [2^p]. *)
Lemma iter_pos_shr_m (p : positive) :
  forall r, 0 <= shr_m r ->
    shr_m (iter_pos shr_1 p r) = shr_m r / 2 ^ Zpos p.
Proof.
  induction p as [p IH|p IH|]; intros r H; simpl iter_pos.
  - assert (H1 := shr_1_nonneg r H).
    assert (H2 : 0 <= shr_m (iter_pos shr_1 p (shr_1 r))).
    { rewrite IH by assumption. apply Z.div_pos; lia. }
    rewrite IH, IH, shr_1_m by assumption.
    rewrite !Z.div_div by lia. rewrite pow2_xI. reflexivity.
  - assert (H2 : 0 <= shr_m (iter_pos shr_1 p r)).
    { rewrite IH by assumption. apply Z.div_pos; lia. }
    rewrite IH, IH by assumption.
    rewrite !Z.div_div by lia. rewrite pow2_xO. reflexivity.
  - rewrite shr_1_m by assumption. reflexivity.
Qed.

(** Shifting out zero bits sets neither the round nor the sticky bit. *)
Lemma shr_1_exact (r : shr_record) :
  0 <= shr_m r -> no_remainder r -> shr_m r mod 2 = 0 -> no_remainder (shr_1 r).
Proof.
  destruct r as [m r s]. unfold no_remainder. simpl. intros H [-> ->] Hm.
  destruct m as [|[p|p|]|p]; simpl; try (split; reflexivity); try lia.
  - rewrite Pos2Z.inj_xI in Hm. exfalso.
    replace (2 * Z.pos p + 1) with (1 + Z.pos p * 2) in Hm by lia.
    rewrite Z.mod_add in Hm by lia. discriminate.
  - discriminate.
Qed.

Lemma iter_pos_exact (p : positive) :
  forall r, 0 <= shr_m r -> no_remainder r -> shr_m r mod 2 ^ Zpos p = 0 ->
    no_remainder (iter_pos shr_1 p r).
Proof.
  induction p as [p IH|p IH|]; intros r H Hex Hm; simpl iter_pos.
  - rewrite pow2_xI in Hm.
    apply Z.mod_divide in Hm; [|lia]. destruct Hm as [k Hk].
    assert (H1 := shr_1_nonneg r H).
    assert (E1 : shr_m (shr_1 r) = k * 2 ^ Z.pos p * 2 ^ Z.pos p).
    { rewrite shr_1_m by assumption. rewrite Hk.
      replace (k * (2 * (2 ^ Z.pos p * 2 ^ Z.pos p)))
        with (k * 2 ^ Z.pos p * 2 ^ Z.pos p * 2) by lia.
      apply Z.div_mul. lia. }
    assert (Hx1 : no_remainder (shr_1 r)).
    { apply shr_1_exact; try assumption. rewrite Hk.
      replace (k * (2 * (2 ^ Z.pos p * 2 ^ Z.pos p)))
        with (k * 2 ^ Z.pos p * 2 ^ Z.pos p * 2) by lia.
      apply Z.mod_mul. lia. }
    assert (E2 : shr_m (iter_pos shr_1 p (shr_1 r)) = k * 2 ^ Z.pos p).
    { rewrite iter_pos_shr_m by assumption. rewrite E1. apply Z.div_mul. lia. }
    assert (Hk0 : 0 <= k * 2 ^ Z.pos p).
    { rewrite <- E2. rewrite iter_pos_shr_m by assumption. apply Z.div_pos; lia. }
    apply IH.
    + rewrite E2. exact Hk0.
    + apply IH; try assumption. rewrite E1. apply Z.mod_mul. lia.
    + rewrite E2. apply Z.mod_mul. lia.
  - rewrite pow2_xO in Hm.
    apply Z.mod_divide in Hm; [|lia]. destruct Hm as [k Hk].
    assert (E2 : shr_m (iter_pos shr_1 p r) = k * 2 ^ Z.pos p).
    { rewrite iter_pos_shr_m by assumption. rewrite Hk.
      replace (k * (2 ^ Z.pos p * 2 ^ Z.pos p)) with (k * 2 ^ Z.pos p * 2 ^ Z.pos p) by lia.
      apply Z.div_mul. lia. }
    assert (Hk0 : 0 <= k * 2 ^ Z.pos p).
    { rewrite <- E2. rewrite iter_pos_shr_m by assumption. apply Z.div_pos; lia. }
    apply IH.
    + rewrite E2. exact Hk0.
    + apply IH; try assumption. rewrite Hk.
      replace (k * (2 ^ Z.pos p * 2 ^ Z.pos p)) with (k * 2 ^ Z.pos p * 2 ^ Z.pos p) by lia.
      apply Z.mod_mul. lia.
    + rewrite E2. apply Z.mod_mul. lia.
  - apply shr_1_exact; assumption.
Qed.

(** Locations and shift records. *)
Lemma shr_record_of_loc_m (m : Z) (l : location) : shr_m (shr_record_of_loc m l) = m.
Proof. destruct l as [|[]]; reflexivity. Qed.

Lemma shr_record_of_loc_exact (m : Z) : no_remainder (shr_record_of_loc m loc_Exact).
Proof. split; reflexivity. Qed.

Lemma loc_of_exact (r : shr_record) : no_remainder r -> loc_of_shr_record r = loc_Exact.
Proof. destruct r as [m r s]. intros [H1 H2]. simpl in *. subst. reflexivity. Qed.

(** Rounding to nearest keeps the mantissa or adds one to it. *)
Lemma round_nearest_even_bounds (m : Z) (l : location) :
  m <= round_nearest_even m l <= m + 1.
Proof.
  unfold round_nearest_even. destruct l as [|[]]; try lia.
  destruct (Z.even m); lia.
Qed.

Lemma round_shift_nonneg (m e : Z) : 0 <= round_shift m e.
Proof. unfold round_shift. lia. Qed.

Lemma pow2_pos (k : Z) : 0 <= k -> 0 < 2 ^ k.
Proof. intros H. apply Z.pow_pos_nonneg; lia. Qed.

(** [shr_fexp] divides the mantissa by [2^round_shift] and adds
    [round_shift] to the exponent; it loses nothing when the division is
    exact. *)
Lemma shr_fexp_spec (m e : Z) (l : location) :
  0 <= m ->
  exists mrs,
    shr_fexp prec emax m e l = (mrs, e + round_shift m e) /\
    shr_m mrs = m / 2 ^ round_shift m e /\
    (l = loc_Exact -> m mod 2 ^ round_shift m e = 0 -> no_remainder mrs).
Proof.
  intros Hm. unfold shr_fexp, shr, round_shift.
  change (SpecFloat.fexp prec emax (Zdigits2 m + e)) with (fexp64 (Zdigits2 m + e)).
  destruct (fexp64 (Zdigits2 m + e) - e) as [|p|p] eqn:E.
  - exists (shr_record_of_loc m l). rewrite Z.max_l by lia.
    rewrite Z.add_0_r, Z.pow_0_r, Z.div_1_r, shr_record_of_loc_m.
    split; [reflexivity|]. split; [reflexivity|].
    intros -> _. apply shr_record_of_loc_exact.
  - exists (iter_pos shr_1 p (shr_record_of_loc m l)). rewrite Z.max_r by lia.
    split; [reflexivity|]. split.
    + rewrite iter_pos_shr_m, shr_record_of_loc_m; [reflexivity|].
      rewrite shr_record_of_loc_m. exact Hm.
    + intros -> Hmod. apply iter_pos_exact.
      * rewrite shr_record_of_loc_m. exact Hm.
      * apply shr_record_of_loc_exact.
      * rewrite shr_record_of_loc_m. exact Hmod.
  - exists (shr_record_of_loc m l). rewrite Z.max_l by lia.
    rewrite Z.add_0_r, Z.pow_0_r, Z.div_1_r, shr_record_of_loc_m.
    split; [reflexivity|]. split; [reflexivity|].
    intros -> _. apply shr_record_of_loc_exact.
Qed.

(** The structure of the result of [binary_round_aux] on a non-negative
    mantissa. *)
Lemma binary_round_aux_spec (mx ex : Z) (lx : location) :
  0 <= mx ->
  exists rounded,
    mx / 2 ^ round_shift mx ex <= rounded <= mx / 2 ^ round_shift mx ex + 1 /\
    (lx = loc_Exact -> mx mod 2 ^ round_shift mx ex = 0 -> rounded = mx / 2 ^ round_shift mx ex) /\
    binary_round_aux prec emax false mx ex lx =
    let e1 := ex + round_shift mx ex in
    let e2 := e1 + round_shift rounded e1 in
    match rounded / 2 ^ round_shift rounded e1 with
    | Z0 => S754_zero false
    | Zpos m => if e2 <=? emax - prec then S754_finite false m e2 else S754_infinity false
    | Zneg _ => S754_nan
    end.
Proof.
  intros Hm. unfold binary_round_aux.
  destruct (shr_fexp_spec mx ex lx Hm) as (mrs & E1 & Em & Hex). rewrite E1.
  set (rounded := round_nearest_even (shr_m mrs) (loc_of_shr_record mrs)).
  assert (Hr : shr_m mrs <= rounded <= shr_m mrs + 1) by apply round_nearest_even_bounds.
  assert (Hr0 : 0 <= rounded).
  { rewrite Em in Hr. pose proof (pow2_pos _ (round_shift_nonneg mx ex)).
    assert (0 <= mx / 2 ^ round_shift mx ex) by (apply Z.div_pos; lia). lia. }
  destruct (shr_fexp_spec rounded (ex + round_shift mx ex) loc_Exact Hr0) as (mrs2 & E2 & Em2 & _).
  rewrite E2. exists rounded. rewrite <- Em. split; [exact Hr|]. split.
  - intros Hl Hmod. unfold rounded. rewrite (loc_of_exact mrs (Hex Hl Hmod)). reflexivity.
  - cbv zeta. rewrite Em2. reflexivity.
Qed.

Lemma fexp64_eq (e : Z) : fexp64 e = Z.max (e - 53) (-1074).
Proof. reflexivity. Qed.

Lemma Zdigits2_unique (m k : Z) :
  2 ^ (k - 1) <= m < 2 ^ k -> 0 < m -> Zdigits2 m = k.
Proof.
  intros [Hlo Hhi] Hm.
  pose proof (Zdigits2_bounds m Hm) as [Dlo Dhi].
  pose proof (Zdigits2_pos m Hm) as Dpos.
  destruct (Z.lt_trichotomy (Zdigits2 m) k) as [H|[H|H]]; [|exact H|].
  - assert (0 < k) by lia.
    assert (2 ^ Zdigits2 m <= 2 ^ (k - 1)) by (apply Z.pow_le_mono_r; lia). lia.
  - destruct (Z.le_gt_cases k 0) as [Hk|Hk].
    + assert (2 ^ k <= 1).
      { destruct (Z.eq_dec k 0) as [->|]; [simpl; lia|].
        rewrite Z.pow_neg_r by lia. lia. }
      lia.
    + assert (2 ^ k <= 2 ^ (Zdigits2 m - 1)) by (apply Z.pow_le_mono_r; lia). lia.
Qed.

(** [shl_align] multiplies the mantissa by a power of two. *)
Lemma pos_iter_xO (d : positive) (m : positive) :
  Zpos (Pos.iter xO m d) = Zpos m * 2 ^ Zpos d.
Proof.
  induction d as [|d IH] using Pos.peano_ind.
  - simpl. lia.
  - rewrite Pos.iter_succ, Pos2Z.inj_xO, IH, Pos2Z.inj_succ, Z.pow_succ_r by lia. lia.
Qed.

Lemma shl_align_spec (mx : positive) (ex ex' : Z) :
  shl_align mx ex ex' =
  (Z.to_pos (Zpos mx * 2 ^ (ex - Z.min ex ex')), Z.min ex ex').
Proof.
  unfold shl_align. destruct (ex' - ex) as [|p|p] eqn:E.
  - rewrite Z.min_l by lia. rewrite Z.sub_diag, Z.mul_1_r. reflexivity.
  - rewrite Z.min_l by lia. rewrite Z.sub_diag, Z.mul_1_r. reflexivity.
  - rewrite Z.min_r by lia. replace (ex - ex') with (Zpos p) by lia.
    rewrite <- pos_iter_xO. reflexivity.
Qed.

(** A mantissa that needs no round_shift is kept. *)
Lemma binary_round_aux_fixed (m e : Z) :
  0 < m -> round_shift m e = 0 -> e <= emax - prec ->
  binary_round_aux prec emax false m e loc_Exact = S754_finite false (Z.to_pos m) e.
Proof.
  intros Hm Hs He.
  destruct (binary_round_aux_spec m e loc_Exact) as (rounded & _ & Hex & ->); [lia|].
  rewrite Hs in *. rewrite Z.pow_0_r, Z.div_1_r in Hex.
  rewrite Hex by (try reflexivity; apply Z.mod_1_r).
  cbv zeta. rewrite Z.add_0_r, Hs, Z.pow_0_r, Z.div_1_r, Z.add_0_r.
  apply Z.leb_le in He. rewrite He. destruct m; try lia. reflexivity.
Qed.

(** The double of a positive integer below 2^53: a mantissa of 53 bits. *)
Lemma py_float_normal (n : Z) :
  0 < n < 2 ^ 53 ->
  exists m, py_float n = S754_finite false m (Zdigits2 n - 53) /\
            Zpos m = n * 2 ^ (53 - Zdigits2 n) /\
            Zdigits2 (Zpos m) = 53.
Proof.
  intros [Hn0 Hn]. destruct n as [|p|p]; try lia.
  unfold py_float, binary_normalize, binary_round.
  rewrite shl_align_spec.
  change (SpecFloat.fexp prec emax (Z.pos (digits2_pos p) + 0))
    with (fexp64 (Zdigits2 (Zpos p) + 0)).
  set (dg := Zdigits2 (Zpos p)).
  assert (Hd : 0 < dg <= 53).
  { split; [apply Zdigits2_pos; lia | apply Zdigits2_le; lia]. }
  rewrite Z.add_0_r, fexp64_eq. rewrite (Z.max_l (dg - 53)) by lia.
  rewrite Z.min_r by lia. replace (0 - (dg - 53)) with (53 - dg) by lia.
  pose proof (Zdigits2_bounds (Zpos p) ltac:(lia)) as [Dlo Dhi]. fold dg in Dlo, Dhi.
  pose proof (pow2_pos (53 - dg) ltac:(lia)) as Hpow.
  assert (Hmz : 0 < Zpos p * 2 ^ (53 - dg)) by nia.
  assert (Hdig : Zdigits2 (Zpos p * 2 ^ (53 - dg)) = 53).
  { apply Zdigits2_unique; [|exact Hmz].
    replace (2 ^ (53 - 1)) with (2 ^ (dg - 1) * 2 ^ (53 - dg))
      by (rewrite <- Z.pow_add_r by lia; f_equal; lia).
    replace (2 ^ 53) with (2 ^ dg * 2 ^ (53 - dg))
      by (rewrite <- Z.pow_add_r by lia; f_equal; lia).
    nia. }
  exists (Z.to_pos (Zpos p * 2 ^ (53 - dg))).
  rewrite Z2Pos.id by exact Hmz. split; [|split; [reflexivity | exact Hdig]].
  apply binary_round_aux_fixed.
  - exact Hmz.
  - unfold round_shift. rewrite Hdig, fexp64_eq. lia.
  - unfold emax, prec. lia.
Qed.

Lemma fexp64_le_0 (k : Z) : k <= 53 -> fexp64 k <= 0.
Proof. rewrite fexp64_eq. lia. Qed.

Lemma pow2_split (a b : Z) : 0 <= a -> 0 <= b -> 2 ^ (a + b) = 2 ^ a * 2 ^ b.
Proof. intros. apply Z.pow_add_r; assumption. Qed.

(** The last step of [binary_round_aux], for a rounded mantissa below a
    bound. *)
Lemma at_most_of_rounded (rounded e1 B : Z) :
  0 <= rounded -> e1 <= 0 -> 0 <= B < 2 ^ 53 ->
  rounded <= B * 2 ^ (- e1) ->
  at_most
    (let e2 := e1 + round_shift rounded e1 in
     match rounded / 2 ^ round_shift rounded e1 with
     | Z0 => S754_zero false
     | Zpos m => if e2 <=? emax - prec then S754_finite false m e2 else S754_infinity false
     | Zneg _ => S754_nan
     end) B.
Proof.
  intros Hr He1 HB Hle. cbv zeta.
  pose proof (round_shift_nonneg rounded e1) as Hn2.
  pose proof (pow2_pos _ Hn2) as Hp2.
  pose proof (pow2_pos (- e1) ltac:(lia)) as Hp1.
  assert (He2 : e1 + round_shift rounded e1 <= 0).
  { destruct (Z.eq_dec rounded 0) as [->|Hne].
    - unfold round_shift. simpl Zdigits2. rewrite fexp64_eq. lia.
    - assert (Hlt : rounded < 2 ^ (53 - e1)).
      { replace (53 - e1) with (53 + - e1) by lia. rewrite pow2_split by lia. nia. }
      pose proof (Zdigits2_le rounded (53 - e1) ltac:(lia) Hlt) as Hd.
      pose proof (fexp64_le_0 (Zdigits2 rounded + e1) ltac:(lia)).
      unfold round_shift. lia. }
  assert (Hq : rounded / 2 ^ round_shift rounded e1 <= B * 2 ^ (- (e1 + round_shift rounded e1))).
  { apply Z.div_le_upper_bound; [exact Hp2|].
    replace (- e1) with (round_shift rounded e1 + - (e1 + round_shift rounded e1)) in Hle by lia.
    rewrite pow2_split in Hle by lia. lia. }
  assert (Hq0 : 0 <= rounded / 2 ^ round_shift rounded e1) by (apply Z.div_pos; lia).
  destruct (rounded / 2 ^ round_shift rounded e1) as [|m|m] eqn:E; [exact I| |lia].
  assert (Hleb : (e1 + round_shift rounded e1 <=? emax - prec) = true).
  { apply Z.leb_le. unfold emax, prec. lia. }
  rewrite Hleb. simpl. split; [exact He2 | exact Hq].
Qed.

(** Division: a quotient below 1 is rounded to at most 1. *)
Lemma div_at_most_1 (i d : Z) :
  0 <= i < d -> d < 2 ^ 53 ->
  at_most (SFdiv prec emax (py_float i) (py_float d)) 1.
Proof.
  intros [Hi Hid] Hd.
  destruct (py_float_normal d ltac:(lia)) as (m2 & -> & Em2 & Dm2).
  destruct (Z.eq_dec i 0) as [->|Hi0]; [exact I|].
  destruct (py_float_normal i ltac:(lia)) as (m1 & -> & Em1 & Dm1).
  unfold SFdiv, SFdiv_core_binary.
  rewrite Dm1, Dm2.
  set (e1 := Zdigits2 i - 53). set (e2 := Zdigits2 d - 53).
  assert (Hdi : 0 < Zdigits2 i <= Zdigits2 d).
  { split; [apply Zdigits2_pos; lia|].
    apply Zdigits2_le; [lia|].
    pose proof (Zdigits2_bounds d ltac:(lia)). lia. }
  assert (Hdd : Zdigits2 d <= 53) by (apply Zdigits2_le; lia).
  change (SpecFloat.fexp prec emax (53 + e1 - (53 + e2)))
    with (fexp64 (53 + e1 - (53 + e2))).
  rewrite fexp64_eq.
  replace (Z.min (Z.max (53 + e1 - (53 + e2) - 53) (-1074)) (e1 - e2))
    with (e1 - e2 - 53) by (subst e1 e2; lia).
  replace (e1 - e2 - (e1 - e2 - 53)) with 53 by lia.
  cbv iota beta.
  rewrite Z.shiftl_mul_pow2 by lia.
  pose proof (Z_div_mod (Z.pos m1 * 2 ^ 53) (Z.pos m2) ltac:(lia)) as Hdm.
  destruct (Z.div_eucl (Z.pos m1 * 2 ^ 53) (Z.pos m2)) as [q r] eqn:Eqr.
  destruct Hdm as [Hq Hrem].
  set (e' := e1 - e2 - 53).
  assert (Hq0 : 0 <= q) by nia.
  assert (He' : e' <= -53) by (subst e' e1 e2; lia).
  assert (Hqlt : q < 2 ^ (- e')).
  { assert (Z.pos m1 * 2 ^ 53 < Z.pos m2 * 2 ^ (- e')).
    { rewrite Em1, Em2. subst e' e1 e2.
      replace (- (Zdigits2 i - 53 - (Zdigits2 d - 53) - 53))
        with (53 + (Zdigits2 d - Zdigits2 i)) by lia.
      replace (53 - Zdigits2 i) with ((53 - Zdigits2 d) + (Zdigits2 d - Zdigits2 i)) by lia.
      rewrite !pow2_split by lia.
      pose proof (pow2_pos (53 - Zdigits2 d) ltac:(lia)).
      pose proof (pow2_pos (Zdigits2 d - Zdigits2 i) ltac:(lia)).
      pose proof (pow2_pos 53 ltac:(lia)).
      nia. }
    nia. }
  simpl xorb.
  destruct (binary_round_aux_spec q e' (new_location (Z.pos m2) r) Hq0)
    as (rounded & Hr & _ & ->).
  pose proof (round_shift_nonneg q e') as Hn1.
  pose proof (pow2_pos _ Hn1) as Hp1.
  assert (He1 : e' + round_shift q e' <= -53).
  { destruct (Z.eq_dec q 0) as [->|Hne].
    - unfold round_shift. simpl Zdigits2. rewrite fexp64_eq. lia.
    - pose proof (Zdigits2_le q (- e') ltac:(lia) Hqlt).
      unfold round_shift. rewrite fexp64_eq. lia. }
  assert (Hq1 : q / 2 ^ round_shift q e' < 2 ^ (- (e' + round_shift q e'))).
  { apply Z.div_lt_upper_bound; [exact Hp1|].
    rewrite <- pow2_split by lia.
    replace (round_shift q e' + - (e' + round_shift q e')) with (- e') by lia. exact Hqlt. }
  apply at_most_of_rounded.
  - assert (0 <= q / 2 ^ round_shift q e') by (apply Z.div_pos; lia). lia.
  - lia.
  - lia.
  - lia.
Qed.

(** Multiplication by an integer [m]: a factor of at most 1 gives at most
    [m]. *)
Lemma mul_at_most (x : spec_float) (m : Z) :
  at_most x 1 -> 0 <= m < 2 ^ 53 ->
  at_most (SFmul prec emax x (py_float m)) m.
Proof.
  intros Hx [Hm0 Hm].
  destruct (Z.eq_dec m 0) as [->|Hne].
  { destruct x as [s|s| |[] mx ex]; cbv beta iota delta [at_most] in Hx;
      try contradiction; exact I. }
  destruct (py_float_normal m ltac:(lia)) as (mm & -> & Emm & Dmm).
  destruct x as [s|s| |[] mx ex]; cbv beta iota delta [at_most] in Hx;
    try contradiction; [exact I|].
  destruct Hx as [Hex Hmx]. rewrite Z.mul_1_l in Hmx.
  unfold SFmul. simpl xorb.
  set (em := Zdigits2 m - 53) in *.
  assert (Hem : em <= 0).
  { subst em. pose proof (Zdigits2_le m 53 ltac:(lia) Hm). lia. }
  replace (53 - Zdigits2 m) with (- em) in Emm by (subst em; lia).
  set (P := Z.pos (mx * mm)). set (e := ex + em).
  assert (HP0 : 0 < P) by (subst P; lia).
  pose proof (pow2_pos (- ex) ltac:(lia)) as Hpx.
  pose proof (pow2_pos (- em) ltac:(lia)) as Hpm.
  assert (HP : P <= m * 2 ^ (- e)).
  { subst P e. rewrite Pos2Z.inj_mul, Emm.
    replace (- (ex + em)) with (- ex + - em) by lia.
    rewrite pow2_split by lia. nia. }
  destruct (binary_round_aux_spec P e loc_Exact ltac:(lia)) as (rounded & Hr & Hexact & ->).
  pose proof (round_shift_nonneg P e) as Hn1.
  pose proof (pow2_pos _ Hn1) as Hp1.
  assert (He1 : e + round_shift P e <= 0).
  { assert (Hlt : P < 2 ^ (53 - e)).
    { replace (53 - e) with (53 + - e) by lia. rewrite pow2_split by (subst e; lia).
      pose proof (pow2_pos (- e) ltac:(subst e; lia)). nia. }
    pose proof (Zdigits2_le P (53 - e) HP0 Hlt).
    pose proof (fexp64_le_0 (Zdigits2 P + e) ltac:(lia)).
    unfold round_shift. subst e. lia. }
  set (b := m * 2 ^ (- (e + round_shift P e))).
  assert (HPb : P <= b * 2 ^ round_shift P e).
  { subst b. rewrite <- Z.mul_assoc, <- pow2_split by lia.
    replace (- (e + round_shift P e) + round_shift P e) with (- e) by lia. exact HP. }
  assert (Hq1 : P / 2 ^ round_shift P e <= b).
  { apply Z.div_le_upper_bound; [exact Hp1|]. lia. }
  assert (Hrb : rounded <= b).
  { destruct (Z.eq_dec (P / 2 ^ round_shift P e) b) as [Eb|Nb]; [|lia].
    rewrite Hexact; [lia | reflexivity |].
    assert (b * 2 ^ round_shift P e <= P).
    { rewrite <- Eb. rewrite Z.mul_comm. apply Z.mul_div_le. exact Hp1. }
    assert (EP : P = b * 2 ^ round_shift P e) by lia.
    apply Z.mod_divide; [lia|]. exists b. exact EP. }
  apply at_most_of_rounded.
  - assert (0 <= P / 2 ^ round_shift P e) by (apply Z.div_pos; lia). lia.
  - exact He1.
  - lia.
  - exact Hrb.
Qed.

(** [int(x)] is at least 1 as soon as the value of [x] is. *)
Lemma py_int_at_least_1 (m : positive) (e : Z) :
  (e <= 0 -> 2 ^ (- e) <= Zpos m) ->
  1 <= py_int (S754_finite false m e).
Proof.
  intros H. unfold py_int, cond_Zopp.
  destruct (Z.le_gt_cases e 0) as [He|He].
  - rewrite Z.shiftl_div_pow2 by lia. specialize (H He).
    pose proof (pow2_pos (- e) ltac:(lia)).
    apply Z.div_le_lower_bound; lia.
  - rewrite Z.shiftl_mul_pow2 by lia.
    pose proof (pow2_pos e ltac:(lia)). nia.
Qed.

(** Subtraction from an integer [M1]: when the subtrahend is at most
    [M1 - 1] the difference truncates to at least 1. *)
Lemma sub_at_least_1 (M1 : Z) (y : spec_float) :
  1 <= M1 < 2 ^ 53 -> at_most y (M1 - 1) ->
  1 <= py_int (SFsub prec emax (py_float M1) y).
Proof.
  intros [HM0 HM] Hy.
  destruct (py_float_normal M1 ltac:(lia)) as (ma & -> & Ema & Dma).
  set (ea := Zdigits2 M1 - 53) in *.
  assert (Hea : ea <= 0).
  { subst ea. pose proof (Zdigits2_le M1 53 ltac:(lia) HM). lia. }
  replace (53 - Zdigits2 M1) with (- ea) in Ema by (subst ea; lia).
  pose proof (pow2_pos (- ea) ltac:(lia)) as Hpa.
  destruct y as [s|s| |[] my ey]; cbv beta iota delta [at_most] in Hy;
    try contradiction.
  { (* y = 0 *)
    simpl SFsub. apply py_int_at_least_1. intros _. rewrite Ema. nia. }
  destruct Hy as [Hey Hmy].
  pose proof (pow2_pos (- ey) ltac:(lia)) as Hpy.
  unfold SFsub. rewrite !shl_align_spec. cbn [fst cond_Zopp].
  set (ez := Z.min ea ey).
  replace (Z.min ea ez) with ez by (subst ez; lia).
  replace (Z.min ey ez) with ez by (subst ez; lia).
  assert (Hez : ez <= 0) by (subst ez; lia).
  pose proof (pow2_pos (ea - ez) ltac:(subst ez; lia)) as Hpaz.
  pose proof (pow2_pos (ey - ez) ltac:(subst ez; lia)) as Hpyz.
  pose proof (pow2_pos (- ez) ltac:(lia)) as Hpz.
  rewrite !Z2Pos.id by nia.
  set (M := Z.pos ma * 2 ^ (ea - ez) - Z.pos my * 2 ^ (ey - ez)).
  assert (EA : Z.pos ma * 2 ^ (ea - ez) = M1 * 2 ^ (- ez)).
  { rewrite Ema, <- Z.mul_assoc, <- pow2_split by (subst ez; lia).
    f_equal. f_equal. lia. }
  assert (EY : Z.pos my * 2 ^ (ey - ez) <= (M1 - 1) * 2 ^ (- ez)).
  { replace (- ez) with (- ey + (ey - ez)) by lia.
    rewrite pow2_split by (subst ez; lia). nia. }
  assert (HMlo : 2 ^ (- ez) <= M) by (subst M; nia).
  assert (HMhi : M < 2 ^ (53 - ez)).
  { replace (53 - ez) with (53 + - ez) by lia. rewrite pow2_split by lia.
    subst M. nia. }
  destruct M as [|Mp|Mp] eqn:EM; try lia.
  unfold binary_normalize, binary_round. rewrite shl_align_spec.
  change (SpecFloat.fexp prec emax (Z.pos (digits2_pos Mp) + ez))
    with (fexp64 (Zdigits2 (Zpos Mp) + ez)).
  set (ez' := Z.min ez (fexp64 (Zdigits2 (Z.pos Mp) + ez))).
  assert (Hez' : ez' <= ez) by (subst ez'; lia).
  pose proof (pow2_pos (ez - ez') ltac:(lia)) as Hpzz.
  pose proof (pow2_pos (- ez') ltac:(lia)) as Hpz'.
  rewrite Z2Pos.id by nia.
  set (mz := Z.pos Mp * 2 ^ (ez - ez')).
  assert (Hmzlo : 2 ^ (- ez') <= mz).
  { subst mz. replace (- ez') with (- ez + (ez - ez')) by lia.
    rewrite pow2_split by lia. nia. }
  assert (Hmzhi : mz < 2 ^ (53 - ez')).
  { subst mz. replace (53 - ez') with ((53 - ez) + (ez - ez')) by lia.
    rewrite pow2_split by lia. nia. }
  assert (Hmz0 : 0 < mz) by lia.
  destruct (binary_round_aux_spec mz ez' loc_Exact ltac:(lia)) as (rounded & Hr & _ & ->).
  pose proof (round_shift_nonneg mz ez') as Hn1.
  pose proof (pow2_pos _ Hn1) as Hp1.
  set (e1 := ez' + round_shift mz ez').
  assert (He1 : e1 <= 0).
  { pose proof (Zdigits2_le mz (53 - ez') Hmz0 Hmzhi).
    pose proof (fexp64_le_0 (Zdigits2 mz + ez') ltac:(lia)).
    subst e1. unfold round_shift. lia. }
  assert (He1lo : -1074 <= e1).
  { subst e1. unfold round_shift. rewrite fexp64_eq. lia. }
  pose proof (pow2_pos (- e1) ltac:(lia)) as Hpe1.
  assert (Hrlo : 2 ^ (- e1) <= rounded).
  { assert (2 ^ (- e1) <= mz / 2 ^ round_shift mz ez'); [|lia].
    apply Z.div_le_lower_bound; [exact Hp1|].
    rewrite <- pow2_split by lia.
    replace (round_shift mz ez' + - e1) with (- ez') by (subst e1; lia). exact Hmzlo. }
  assert (Hrhi : rounded <= 2 ^ (53 - e1)).
  { assert (mz / 2 ^ round_shift mz ez' < 2 ^ (53 - e1)); [|lia].
    apply Z.div_lt_upper_bound; [exact Hp1|].
    rewrite <- pow2_split by lia.
    replace (round_shift mz ez' + (53 - e1)) with (53 - ez') by (subst e1; lia). exact Hmzhi. }
  cbv zeta. fold e1.
  assert (Hr0 : 0 < rounded) by lia.
  pose proof (Zdigits2_bounds rounded Hr0) as [Dlo Dhi].
  pose proof (Zdigits2_pos rounded Hr0) as Dpos.
  set (D := Zdigits2 rounded) in *.
  assert (HD : D <= 54 - e1).
  { apply Zdigits2_le; [exact Hr0|].
    assert (2 ^ (53 - e1) < 2 ^ (54 - e1)) by (apply Z.pow_lt_mono_r; lia). lia. }
  pose proof (round_shift_nonneg rounded e1) as Hn2.
  pose proof (pow2_pos _ Hn2) as Hp2.
  assert (Hs2 : round_shift rounded e1 = Z.max 0 (D - 53)).
  { unfold round_shift. fold D. rewrite fexp64_eq. lia. }
  assert (Hq2 : 1 <= rounded / 2 ^ round_shift rounded e1 /\
                (e1 + round_shift rounded e1 <= 0 ->
                 2 ^ (- (e1 + round_shift rounded e1)) <= rounded / 2 ^ round_shift rounded e1)).
  { split.
    - apply Z.div_le_lower_bound; [exact Hp2|]. rewrite Z.mul_1_r.
      assert (2 ^ round_shift rounded e1 <= 2 ^ (D - 1)); [|lia].
      apply Z.pow_le_mono_r; lia.
    - intros Hle. apply Z.div_le_lower_bound; [exact Hp2|].
      rewrite <- pow2_split by lia.
      replace (round_shift rounded e1 + - (e1 + round_shift rounded e1)) with (- e1) by lia.
      exact Hrlo. }
  destruct Hq2 as [Hq21 Hq22].
  destruct (rounded / 2 ^ round_shift rounded e1) as [|m|m] eqn:E; try lia.
  assert (Hleb : (e1 + round_shift rounded e1 <=? emax - prec) = true).
  { apply Z.leb_le. unfold emax, prec. lia. }
  rewrite Hleb. apply py_int_at_least_1. exact Hq22.
Qed.

(** For a line of at least two words every filler index is at least 1
    (the counts are taken below 2^53, where integers are doubles). *)
Lemma filler_index_at_least_1 (original_words i deficit : Z) :
  2 <= original_words <= 2 ^ 53 -> 0 <= i < deficit -> deficit < 2 ^ 53 ->
  1 <= filler_index original_words i deficit.
Proof.
  intros HN Hi Hd. unfold filler_index.
  apply sub_at_least_1; [lia|].
  replace (original_words - 1 - 1) with (original_words - 2) by lia.
  apply mul_at_most; [|lia].
  apply div_at_most_1; assumption.
Qed.

End Binary64.


(** ** Justification *)

Lemma retab_cols (w : str) (cols : Z) (c : context) :
  add_cols (retab w cols (tabstop c)) cols c
  = cols + Z.of_nat (length (retab w cols (tabstop c))).
Proof. apply add_cols_no_tab. apply retab_no_tab. Qed.

Lemma not_in_concat (ws : list token) :
  (forall w, In w ws -> ~ In tab w) -> ~ In tab (concat ws).
Proof.
  intros H Hin. apply in_concat in Hin. destruct Hin as (w & Hw & Ht).
  exact (H w Hw Ht).
Qed.

(** After lines 95-100 no word has a tab, and [cols] has advanced by the
    number of characters of the words. *)
Lemma retab_words_spec (ws : list token) (c : context) :
  forall cols ws' cols',
    retab_words ws cols c = (ws', cols') ->
    (forall w, In w ws' -> ~ In tab w) /\
    cols' = cols + Z.of_nat (length (concat ws')) /\
    length ws' = length ws.
Proof.
  induction ws as [|w ws IH]; intros cols ws' cols'; simpl.
  - intros E. injection E as <- <-. simpl. split; [tauto | split; [lia | reflexivity]].
  - destruct (retab_words ws _ c) as [rest' cols1] eqn:E1.
    intros E. injection E as <- <-.
    destruct (IH _ _ _ E1) as (Htab & Hcols & Hlen).
    rewrite retab_cols in Hcols. split; [|split].
    + intros x [<-|Hin]; [apply retab_no_tab | apply Htab; exact Hin].
    + simpl concat. rewrite length_app. lia.
    + simpl. lia.
Qed.

(** [list.insert] adds its element and keeps the others. *)
Lemma list_insert_concat {A : Type} (index : Z) (x : A) (l : list A) :
  exists a b, l = a ++ b /\ list_insert index x l = a ++ x :: b.
Proof.
  unfold list_insert. eexists _, _. split; [|reflexivity].
  symmetry. apply firstn_skipn.
Qed.

Lemma insert_fillers_spec (count : nat) :
  forall i deficit original_words ws,
    ~ In tab (concat ws) ->
    ~ In tab (concat (insert_fillers count i deficit original_words ws)) /\
    length (concat (insert_fillers count i deficit original_words ws))
    = (length (concat ws) + count)%nat /\
    length (insert_fillers count i deficit original_words ws)
    = (length ws + count)%nat.
Proof.
  induction count as [|count IH]; intros i deficit n ws Htab; cbn [insert_fillers].
  - unfold token, str in *. split; [exact Htab | split; lia].
  - destruct (list_insert_concat (filler_index n i deficit) [space] ws)
      as (a & b & Eab & Eins).
    rewrite Eins. subst ws.
    destruct (IH (i + 1) deficit n (a ++ [space] :: b)) as (H1 & H2 & H3).
    { intros Hin. apply Htab. rewrite concat_app in *. simpl in Hin.
      apply in_app_or in Hin. apply in_or_app.
      destruct Hin as [Hin|[Hin|Hin]]; [left; exact Hin | discriminate | right; exact Hin]. }
    split; [exact H1 | split].
    + rewrite H2. rewrite !concat_app, !length_app. simpl.
      unfold token, str in *. lia.
    + rewrite H3. rewrite !length_app. simpl. unfold token, str in *. lia.
Qed.

(** What the justifier does to a line that is short of the width: the words
    written after the prefix take exactly [width] columns, so that the line
    takes the columns of its prefix and [width] more. *)
Lemma justified_line_cols (words : list token) (c : context) :
  justify c = true -> flow c = true -> 0 < tabstop c ->
  0 <= width c - snd (retab_words (printable_words words [] []) 0 c) ->
  add_cols (line_text (print_words_as_line words c)) 0 c
  = add_cols (prefix c) 0 c + width c.
Proof.
  intros Hj Hf Hts Hdef. unfold print_words_as_line, line_text.
  rewrite Hj, Hf. simpl andb. cbv iota.
  destruct (retab_words (printable_words words [] []) 0 c) as [pw cols] eqn:E.
  simpl in Hdef. simpl lo_prefix. simpl lo_words.
  destruct (retab_words_spec _ c _ _ _ E) as (Htab & Hcols & _).
  destruct (insert_fillers_spec (Z.to_nat (width c - cols)) 0 (width c - cols)
              (Z.of_nat (length pw)) pw (not_in_concat pw Htab)) as (H1 & H2 & _).
  rewrite add_cols_app, (add_cols_no_tab c _ _ H1), H2. lia.
Qed.

(** [list.insert] at an index of at least 1 leaves the first element in
    place. *)
Lemma list_insert_keeps_head {A : Type} (index : Z) (x a : A) (l : list A) :
  1 <= index -> exists l', list_insert index x (a :: l) = a :: l'.
Proof.
  intros H. unfold list_insert.
  destruct (Z.ltb_spec index 0) as [Hneg|_]; [lia|].
  set (n := Z.of_nat (length (a :: l))).
  assert (Hn : 1 <= n) by (subst n; simpl length; lia).
  destruct (Z.to_nat (Z.min index n)) as [|k] eqn:E; [lia|].
  simpl. eexists. reflexivity.
Qed.

(** On a line of at least two printed words the fillers never go in front
    of the first word. *)
Lemma insert_fillers_keeps_head (count : nat) :
  forall (i deficit original_words : Z) (a : token) (ws : list token),
    2 <= original_words <= 2 ^ 53 -> deficit < 2 ^ 53 ->
    0 <= i -> i + Z.of_nat count <= deficit ->
    exists ws', insert_fillers count i deficit original_words (a :: ws) = a :: ws'.
Proof.
  induction count as [|count IH]; intros i deficit n a ws Hn Hd Hi Hcount;
    cbn [insert_fillers].
  - eexists. reflexivity.
  - assert (Hidx : 1 <= filler_index n i deficit)
      by (apply Binary64.filler_index_at_least_1; lia).
    destruct (list_insert_keeps_head (filler_index n i deficit) [space] a ws Hidx)
      as [ws1 E].
    unfold token, str in *. rewrite E. apply IH; lia.
Qed.

(** In justify mode the first printed word of a line of at least two words
    is written first, right after the prefix. *)
Lemma justified_line_keeps_first_word (words : list token) (c : context) :
  justify c = true -> flow c = true ->
  let printed := fst (retab_words (printable_words words [] []) 0 c) in
  let deficit := width c - snd (retab_words (printable_words words [] []) 0 c) in
  (2 <= length printed)%nat -> Z.of_nat (length printed) <= 2 ^ 53 ->
  deficit < 2 ^ 53 ->
  hd_error (lo_words (print_words_as_line words c)) = hd_error printed.
Proof.
  intros Hj Hf. unfold print_words_as_line. rewrite Hj, Hf. simpl andb. cbv iota.
  destruct (retab_words (printable_words words [] []) 0 c) as [pw cols].
  cbn [fst snd lo_words]. intros Hlen Hmax Hdef.
  destruct pw as [|a pw]; [simpl in Hlen; lia|].
  assert (Hwords : 2 <= Z.of_nat (length (a :: pw)) <= 2 ^ 53) by lia.
  assert (Hcount : 0 + Z.of_nat (Z.to_nat (width c - cols)) <= width c - cols \/
                   width c - cols < 0) by lia.
  destruct Hcount as [Hcount|Hneg].
  - destruct (insert_fillers_keeps_head (Z.to_nat (width c - cols)) 0 (width c - cols)
                (Z.of_nat (length (a :: pw))) a pw Hwords Hdef (Z.le_refl 0) Hcount)
      as [ws' E].
    rewrite E. reflexivity.
  - replace (Z.to_nat (width c - cols)) with 0%nat by lia. reflexivity.
Qed.

(** C2: the justifier counts the columns of the words from column 0 and
    leaves the prefix out ([cols = 0] at line 92, where [process_words]
    reserves room for the prefix at lines 148-149).  With [width = 20] the
    comment ["# aaa bbb ccc ddd eee"] is broken after [ddd]; the line has
    seven words and a deficit of 5, and it is written with 22 columns. *)
Theorem justified_line_exceeds_width :
  let c := initial_context true true false 20 8 in
  let c1 := set_prefix (py "# ") c in
  let slice := [py "aaa"; [space]; py "bbb"; [space]; py "ccc"; [space]; py "ddd"; [space]] in
  format_document (ln "# aaa bbb ccc ddd eee") c
    = Some (ln "# aaa  bbb   ccc   ddd" ++ ln "# eee") /\
  length (printable_words slice [] []) = 7%nat /\
  width c1 - snd (retab_words (printable_words slice [] []) 0 c1) = 5 /\
  line_text (print_words_as_line slice c1) = py "# aaa  bbb   ccc   ddd" /\
  add_cols (line_text (print_words_as_line slice c1)) 0 c1 = 22.
Proof. repeat split; vm_compute; reflexivity. Qed.

(** C7: on a line of one word the filler index is
    [int(0 - (float(i)/deficit) * (-1))], which is 0 for every [i]: all the
    filler spaces are inserted before the word.  With [width = 10] the line
    [hello], closed by the long word that follows it, is written as
    ["     hello"]. *)
Theorem filler_before_single_word :
  let c := initial_context true true false 10 8 in
  map (fun i => filler_index 1 i 5) [0; 1; 2; 3; 4] = [0; 0; 0; 0; 0] /\
  lo_words (print_words_as_line [py "hello"; [space]] c)
    = [[space]; [space]; [space]; [space]; [space]; py "hello"] /\
  format_document (ln "hello" ++ ln "abcdefghij") c
    = Some (ln "     hello" ++ ln "abcdefghij").
Proof. repeat split; vm_compute; reflexivity. Qed.

(** ** The pending words *)




















(** * Further properties of the program *)

(** ** guess_prefix and next_prefix *)

Lemma skip_whitespace_chars_all (rest : str) (i : nat) :
  forallb in_whitespace rest = true ->
  skip_whitespace_chars rest i = (i + length rest)%nat.
Proof.
  revert i. induction rest as [|ch rest IH]; intros i H; simpl in *.
  - lia.
  - apply andb_true_iff in H. destruct H as [Hc H]. rewrite Hc, IH by exact H. lia.
Qed.

Lemma forallb_false_witness (s : str) :
  forallb in_whitespace s = false ->
  exists ch, In ch s /\ in_whitespace ch = false.
Proof.
  induction s as [|ch s IH]; simpl; [discriminate|].
  destruct (in_whitespace ch) eqn:E; simpl.
  - intros H. destruct (IH H) as (x & Hin & Hx). exists x. auto.
  - intros _. exists ch. auto.
Qed.

(** X1: [guess_prefix] raises [IndexError] on exactly one kind of line: the
    line that is not empty and holds nothing but whitespace (then [line[i]]
    is read with [i = len(line)]). *)
Theorem guess_prefix_index_error (line : str) :
  guess_prefix line = None <->
  line <> [] /\ forallb in_whitespace line = true.
Proof.
  split.
  - intros H. destruct line as [|c0 line'] eqn:E; [discriminate|]. rewrite <- E in *.
    split; [subst; discriminate|].
    destruct (forallb in_whitespace line) eqn:Hall; [reflexivity|].
    assert (Hw : line = [] \/ exists ch, In ch line /\ in_whitespace ch = false)
      by (right; apply forallb_false_witness; exact Hall).
    destruct (guess_prefix_firstn line Hw) as [k Hk]. congruence.
  - intros [Hne Hall]. unfold guess_prefix.
    destruct line as [|c0 line'] eqn:E; [congruence|]. rewrite <- E in *.
    replace (Nat.eqb (length line) 0) with false by (subst line; reflexivity).
    rewrite (skip_whitespace_chars_all line 0 Hall). simpl plus.
    unfold slice. rewrite skipn_all. simpl firstn.
    rewrite !firstn_nil. simpl str_eqb.
    replace (nth_error line (length line)) with (@None ascii); [reflexivity|].
    symmetry. apply nth_error_None. lia.
Qed.

Lemma next_prefix_map (p : str) :
  next_prefix p = map (fun char => if ascii_eqb char "*" then space else char) p.
Proof.
  unfold next_prefix. destruct (existsb (ascii_eqb "*") p) eqn:E; [reflexivity|].
  induction p as [|ch p IH]; [reflexivity|]. simpl in *.
  apply orb_false_iff in E. destruct E as [Ec Ep].
  assert (Ec' : ascii_eqb ch "*" = false).
  { unfold ascii_eqb in *. rewrite Ascii.eqb_sym. exact Ec. }
  rewrite Ec'. f_equal. apply IH. exact Ep.
Qed.

(** X3: the continuation prefix lines up with the prefix it comes from: it
    has the same length and takes the same columns, it has no asterisk left,
    and taking the continuation of a continuation changes nothing. *)
Theorem next_prefix_aligned (p : str) :
  length (next_prefix p) = length p /\
  (forall cols c, add_cols (next_prefix p) cols c = add_cols p cols c) /\
  ~ In "*"%char (next_prefix p) /\
  next_prefix (next_prefix p) = next_prefix p.
Proof.
  assert (Hno : ~ In "*"%char (next_prefix p)).
  { rewrite next_prefix_map. intros H. apply in_map_iff in H.
    destruct H as (ch & E & _). destruct (ascii_eqb ch "*") eqn:Ec.
    - discriminate.
    - apply ascii_eqb_eq in E. congruence. }
  split; [|split; [|split]].
  - rewrite next_prefix_map. apply length_map.
  - intros cols c. rewrite next_prefix_map. unfold add_cols. clear Hno. revert cols.
    induction p as [|ch p IH]; intros cols; simpl; [reflexivity|].
    rewrite IH. f_equal. unfold add_char.
    destruct (ascii_eqb ch "*") eqn:Ec; [|reflexivity].
    apply ascii_eqb_eq in Ec. subst ch. reflexivity.
  - exact Hno.
  - unfold next_prefix at 1.
    destruct (existsb (ascii_eqb "*") (next_prefix p)) eqn:E; [|reflexivity].
    apply existsb_exists in E. destruct E as (ch & Hin & Hc).
    apply ascii_eqb_eq in Hc. subst ch. contradiction.
Qed.

(** ** Columns and tabs *)

(** X4: a tab moves to the next tab stop: the column after it is a multiple
    of [tabstop], beyond the column before it and at most [tabstop] columns
    away. *)
Theorem tab_reaches_next_stop (cols : Z) (c : context) :
  0 < tabstop c ->
  add_cols [tab] cols c mod tabstop c = 0 /\
  cols < add_cols [tab] cols c <= cols + tabstop c.
Proof.
  intros Hts. unfold add_cols. simpl. unfold add_char. simpl.
  pose proof (Z.mod_pos_bound cols (tabstop c) Hts) as Hm.
  split; [|lia].
  pose proof (Z.div_mod cols (tabstop c) ltac:(lia)) as Hd.
  replace (cols + (tabstop c - cols mod tabstop c))
    with ((cols / tabstop c + 1) * tabstop c) by lia.
  apply Z.mod_mul. lia.
Qed.

(** X4, witness: column 3 with tab stops every 8 columns. *)
Lemma tab_reaches_next_stop_witness :
  let c := initial_context false false false 80 8 in
  add_cols [tab] 3 c mod tabstop c = 0 /\
  3 < add_cols [tab] 3 c <= 3 + tabstop c.
Proof.
  apply (tab_reaches_next_stop 3 (initial_context false false false 80 8)).
  simpl. lia.
Defined.

Lemma add_cols_upper (c : context) (w : str) :
  0 < tabstop c ->
  forall cols, add_cols w cols c <= cols + Z.of_nat (length w) * tabstop c.
Proof.
  intros Hts. unfold add_cols.
  induction w as [|ch w IH]; intros cols; [simpl; lia|].
  cbn [fold_left]. specialize (IH (add_char (tabstop c) cols ch)).
  assert (add_char (tabstop c) cols ch <= cols + tabstop c).
  { unfold add_char. pose proof (Z.mod_pos_bound cols (tabstop c) Hts).
    destruct (ascii_eqb ch tab); lia. }
  rewrite length_cons, Nat2Z.inj_succ. lia.
Qed.

(** X5: every character takes at least one column and at most [tabstop]
    columns, a string without tabs takes exactly one column per character,
    and the columns of a string are counted piece by piece. *)
Theorem column_count_bounds (w : str) (cols : Z) (c : context) :
  0 < tabstop c ->
  cols + Z.of_nat (length w) <= add_cols w cols c
    <= cols + Z.of_nat (length w) * tabstop c /\
  (~ In tab w -> add_cols w cols c = cols + Z.of_nat (length w)) /\
  (forall a b, w = a ++ b -> add_cols w cols c = add_cols b (add_cols a cols c) c).
Proof.
  intros Hts. split; [split|split].
  - apply add_cols_ge. exact Hts.
  - apply add_cols_upper. exact Hts.
  - apply add_cols_no_tab.
  - intros a b ->. apply add_cols_app.
Qed.

(** X5, witness: a word with a tab in the middle. *)
Lemma column_count_bounds_witness :
  let w := py "ab" ++ [tab] ++ py "cd" in
  let c := initial_context false false false 80 4 in
  2 + Z.of_nat (length w) <= add_cols w 2 c <= 2 + Z.of_nat (length w) * tabstop c /\
  (~ In tab w -> add_cols w 2 c = 2 + Z.of_nat (length w)) /\
  (forall a b, w = a ++ b -> add_cols w 2 c = add_cols b (add_cols a 2 c) c).
Proof.
  apply (column_count_bounds (py "ab" ++ [tab] ++ py "cd") 2
           (initial_context false false false 80 4)).
  simpl. lia.
Defined.

Lemma retab_tab_free (w : str) (offset ts : Z) :
  ~ In tab w -> retab w offset ts = w.
Proof.
  induction w as [|ch w IH]; intros H; simpl; [reflexivity|].
  destruct (ascii_eqb ch tab) eqn:E.
  - apply ascii_eqb_eq in E. subst ch. exfalso. apply H. left. reflexivity.
  - simpl. f_equal. apply IH. intros Hin. apply H. right. exact Hin.
Qed.

Lemma retab_app (a b : str) (offset ts : Z) :
  retab (a ++ b) offset ts = retab a offset ts ++ retab b offset ts.
Proof.
  induction a as [|ch a IH]; simpl; [reflexivity|].
  rewrite IH, app_assoc. reflexivity.
Qed.

(** X6: what [retab] does.  Its result never has a tab; a word without tabs
    is returned as it is; a word is expanded piece by piece, every piece
    from the same offset; and a word whose only tab is its first character
    keeps its columns (the case of a gap that is a single tab). *)
Theorem retab_behaviour (offset ts : Z) :
  (forall w, ~ In tab (retab w offset ts)) /\
  (forall w, ~ In tab w -> retab w offset ts = w) /\
  (forall a b, retab (a ++ b) offset ts = retab a offset ts ++ retab b offset ts) /\
  (forall w c, tabstop c = ts -> 0 < ts -> ~ In tab w ->
     add_cols (retab (tab :: w) offset ts) offset c = add_cols (tab :: w) offset c).
Proof.
  split; [|split; [|split]].
  - intros w. apply retab_no_tab.
  - intros w. apply retab_tab_free.
  - intros a b. apply retab_app.
  - intros w c Hc Hts Hw.
    assert (Hno : ~ In tab (retab (tab :: w) offset ts)) by apply retab_no_tab.
    rewrite (add_cols_no_tab c _ _ Hno).
    simpl retab. replace (ascii_eqb tab tab) with true by reflexivity.
    rewrite (retab_tab_free w offset ts Hw).
    change (tab :: w) with ([tab] ++ w). rewrite add_cols_app.
    rewrite (add_cols_no_tab c w _ Hw).
    unfold add_cols at 1. simpl fold_left. unfold add_char. simpl ascii_eqb.
    replace (ascii_eqb tab tab) with true by reflexivity.
    rewrite Hc. rewrite length_app. unfold spaces. rewrite repeat_length.
    pose proof (Z.mod_pos_bound offset ts Hts). lia.
Qed.

(** ** Reading a line *)

Lemma rstrip_whitespace (ws : str) : is_whitespace ws = true -> rstrip ws = [].
Proof.
  unfold is_whitespace. induction ws as [|ch ws IH]; simpl; [reflexivity|].
  intros H. apply andb_true_iff in H. destruct H as [Hc H].
  rewrite (IH H), Hc. reflexivity.
Qed.

Lemma rstrip_app_whitespace (line ws : str) :
  is_whitespace ws = true -> rstrip (line ++ ws) = rstrip line.
Proof.
  intros H. induction line as [|ch line IH]; simpl.
  - apply rstrip_whitespace. exact H.
  - rewrite IH. reflexivity.
Qed.

Lemma rstrip_tail (line : str) :
  exists ws, line = rstrip line ++ ws /\ is_whitespace ws = true.
Proof.
  induction line as [|ch line IH]; simpl.
  - exists []. split; reflexivity.
  - destruct IH as (ws & E & Hws). destruct (rstrip line) as [|x r] eqn:Er.
    + simpl in E. destruct (in_whitespace ch) eqn:Hc.
      * exists (ch :: line). split; [reflexivity|].
        rewrite E. simpl. unfold is_whitespace in *. rewrite Hc. exact Hws.
      * exists ws. split; [simpl; rewrite E at 1; reflexivity | exact Hws].
    + exists ws. split; [|exact Hws]. rewrite E at 1. reflexivity.
Qed.



(** X7: trailing whitespace never matters.  [rstrip] removes a tail of
    whitespace and nothing else, and a line gives the same result whatever
    whitespace ends it (its newline, a carriage return before it, blanks). *)
Theorem trailing_whitespace_ignored (line : str) (c : context) :
  (exists ws, line = rstrip line ++ ws /\ is_whitespace ws = true) /\
  rstrip (rstrip line) = rstrip line /\
  (forall ws, is_whitespace ws = true ->
     process_line (line ++ ws) c = process_line line c).
Proof.
  split; [apply rstrip_tail|]. split.
  - destruct (rstrip_tail line) as (ws & E & Hws).
    rewrite E at 2. symmetry. apply rstrip_app_whitespace. exact Hws.
  - intros ws Hws. unfold process_line.
    rewrite (rstrip_app_whitespace line ws Hws). reflexivity.
Qed.

(** ** The tokenizer and the reader *)



Lemma in_removelast (A : Type) (x : A) (l : list A) :
  In x (removelast l) -> In x l.
Proof.
  induction l as [|a l IH]; simpl; [tauto|].
  destruct l as [|b l]; [simpl; tauto|].
  intros [H|H]; [left; exact H | right; apply IH; exact H].
Qed.

Lemma readlines_loop_spec (s : str) :
  forall cur, ~ In newline cur ->
    concat (readlines_loop s cur) = cur ++ s /\
    Forall (fun l => l <> [] /\ ~ In newline (removelast l)) (readlines_loop s cur).
Proof.
  induction s as [|ch s IH]; intros cur Hcur; simpl readlines_loop.
  - destruct cur as [|x cur'] eqn:E.
    + split; [reflexivity | constructor].
    + rewrite <- E in *. split; [simpl; rewrite !app_nil_r; reflexivity|].
      constructor; [|constructor]. split; [subst; discriminate|].
      intros H. apply Hcur. apply in_removelast. exact H.
  - destruct (ascii_eqb ch newline) eqn:Ec.
    + apply ascii_eqb_eq in Ec. subst ch.
      destruct (IH [] (fun H => H)) as [Hc Hf]. split.
      * simpl. rewrite Hc. rewrite <- app_assoc. reflexivity.
      * constructor; [|exact Hf]. split.
        -- destruct cur; discriminate.
        -- rewrite removelast_last. exact Hcur.
    + destruct (IH (cur ++ [ch])) as [Hc Hf].
      { intros H. apply in_app_or in H. destruct H as [H|[H|[]]]; [tauto|].
        subst ch. unfold ascii_eqb in Ec. rewrite Ascii.eqb_refl in Ec. discriminate. }
      split; [|exact Hf]. rewrite Hc, <- app_assoc. reflexivity.
Qed.

(** X9: the reading loop of the script ([readline] until it returns the
    empty string) cuts the document into its lines and loses nothing: the
    lines put together are the document, no line is empty, and a newline can
    only be the last character of a line. *)
Theorem readlines_partition (doc : str) :
  concat (readlines doc) = doc /\
  Forall (fun l => l <> [] /\ ~ In newline (removelast l)) (readlines doc).
Proof. apply (readlines_loop_spec doc []). intros []. Qed.

(** ** Writing a line *)

Lemma printable_words_ends (words : list token) :
  forall pending printed,
    (printed = [] \/ exists init w, printed = init ++ [w] /\ is_whitespace w = false) ->
    let r := printable_words words pending printed in
    r = [] \/ exists init w, r = init ++ [w] /\ is_whitespace w = false.
Proof.
  induction words as [|x words IH]; intros pending printed H; simpl.
  - exact H.
  - destruct (is_whitespace x) eqn:Hx; simpl.
    + apply IH. exact H.
    + apply IH. right. exists (printed ++ pending), x.
      rewrite <- app_assoc. auto.
Qed.

(** X10: outside justification a physical line is the prefix of the context
    followed by the words without their trailing gaps: the words written are
    an initial part of the words given, what is left out is whitespace only,
    and the last word written, if any, is not whitespace. *)
Theorem print_words_as_line_drops_trailing_gaps (words : list token) (c : context) :
  justify c && flow c = false ->
  let l := print_words_as_line words c in
  lo_prefix l = prefix c /\
  (exists dropped,
      words = lo_words l ++ dropped /\ forallb is_whitespace dropped = true) /\
  (lo_words l = [] \/
   exists init w, lo_words l = init ++ [w] /\ is_whitespace w = false).
Proof.
  intros H. cbv zeta. rewrite (print_words_as_line_plain words c H). simpl.
  split; [reflexivity|]. split.
  - apply print_words_split.
  - apply (printable_words_ends words [] []). left. reflexivity.
Qed.

(** X10, witness: two words and two trailing gaps. *)
Lemma print_words_as_line_drops_trailing_gaps_witness :
  let words := [py "one"; [space]; py "two"; [space]; [tab]] in
  let c := set_prefix (py "# ") (initial_context true false false 80 8) in
  let l := print_words_as_line words c in
  lo_prefix l = prefix c /\
  (exists dropped,
      words = lo_words l ++ dropped /\ forallb is_whitespace dropped = true) /\
  (lo_words l = [] \/
   exists init w, lo_words l = init ++ [w] /\ is_whitespace w = false).
Proof.
  apply (print_words_as_line_drops_trailing_gaps
           [py "one"; [space]; py "two"; [space]; [tab]]
           (set_prefix (py "# ") (initial_context true false false 80 8))).
  reflexivity.
Defined.

(** ** No word is lost *)

Lemma real_words_app (a b : list token) :
  real_words (a ++ b) = real_words a ++ real_words b.
Proof. apply filter_app. Qed.

Lemma real_words_whitespace (l : list token) :
  forallb is_whitespace l = true -> real_words l = [].
Proof.
  induction l as [|w l IH]; simpl; [reflexivity|].
  intros H. apply andb_true_iff in H. destruct H as [Hw H].
  rewrite Hw. simpl. apply IH. exact H.
Qed.

Lemma real_words_printable (ws : list token) :
  real_words (printable_words ws [] []) = real_words ws.
Proof.
  destruct (print_words_split ws) as (dropped & E & Hd).
  rewrite E at 2. rewrite real_words_app, (real_words_whitespace dropped Hd).
  rewrite app_nil_r. reflexivity.
Qed.

Lemma real_words_print (ws : list token) (c : context) :
  justify c = false ->
  real_words (lo_words (print_words_as_line ws c)) = real_words ws.
Proof.
  intros Hj. rewrite print_words_as_line_plain by (rewrite Hj; reflexivity).
  apply real_words_printable.
Qed.

(** The words skipped after a break are whitespace words. *)
Lemma skip_whitespace_words_split (rest : list token) :
  forall idx,
    real_words (skipn (skip_whitespace_words rest idx - idx) rest) = real_words rest.
Proof.
  induction rest as [|w rest IH]; intros idx; simpl skip_whitespace_words.
  - rewrite skipn_nil. reflexivity.
  - destruct (is_whitespace w) eqn:Hw.
    + pose proof (skip_whitespace_words_range rest (S idx)) as Hr.
      replace (skip_whitespace_words rest (S idx) - idx)%nat
        with (S (skip_whitespace_words rest (S idx) - S idx)) by lia.
      simpl skipn. rewrite IH. simpl. rewrite Hw. reflexivity.
    + rewrite Nat.sub_diag. reflexivity.
Qed.

Lemma real_words_break (ws : list token) (k : nat) :
  real_words ws
  = real_words (firstn k ws)
    ++ real_words (skipn (skip_whitespace_words (skipn k ws) k) ws).
Proof.
  rewrite <- (firstn_skipn k ws) at 1. rewrite real_words_app. f_equal.
  rewrite <- (skip_whitespace_words_split (skipn k ws) k).
  rewrite skipn_skipn. f_equal. f_equal.
  pose proof (skip_whitespace_words_range (skipn k ws) k). lia.
Qed.

Lemma process_words_keeps_words (words : list token) (c : context) :
  justify c = false ->
  real_words (flat_map lo_words (snd (process_words words c))
              ++ underflow (fst (process_words words c)))
  = real_words (underflow c ++ words).
Proof.
  apply (process_words_induction
           (fun words c r => justify c = false ->
              real_words (flat_map lo_words (snd r) ++ underflow (fst r))
              = real_words (underflow c ++ words))).
  clear words c. intros words c IH Hj.
  rewrite process_words_eq. cbv zeta.
  set (c0 := set_underflow [] c).
  assert (Hj0 : justify c0 = false) by exact Hj.
  assert (Hu0 : underflow c0 = []) by reflexivity.
  destruct (underflow c ++ words) as [|first rest] eqn:Ews.
  - cbn [snd fst flat_map]. rewrite Hu0, !app_nil_r.
    apply (real_words_print [] c0 Hj0).
  - destruct (find_overflow rest 1 _ _) as [k|] eqn:Ek.
    + rewrite (real_words_break (first :: rest) k).
      destruct (length (first :: rest) <=? _)%nat eqn:Hlen.
      * apply Nat.leb_le in Hlen. rewrite (skipn_all2 (n := skip_whitespace_words _ _)) by exact Hlen.
        cbn [snd fst flat_map].
        change (underflow (set_prefix (next_prefix (prefix c0)) c0)) with (@nil token).
        rewrite !app_nil_r. apply (real_words_print _ c0 Hj0).
      * match goal with
        | |- context [process_words ?w ?c1] =>
            specialize (IH w c1); destruct (process_words w c1) as [c' lines]
        end.
        cbn [snd fst flat_map] in *. rewrite <- app_assoc, real_words_app.
        rewrite (real_words_print _ c0 Hj0). f_equal.
        rewrite IH; [reflexivity | words_decrease | exact Hj].
    + destruct (flow c0) eqn:Ef; cbn [snd fst flat_map].
      * change (underflow (set_underflow ((first :: rest) ++ [[space]]) c0))
          with ((first :: rest) ++ [[space]]).
        change (real_words ((first :: rest) ++ [[space]]) = real_words (first :: rest)).
        rewrite (real_words_app (first :: rest) [[space]]).
        change (real_words [[space]]) with (@nil token).
        rewrite app_nil_r. reflexivity.
      * rewrite Hu0, !app_nil_r. apply (real_words_print _ c0 Hj0).
Qed.

Lemma resolve_context_keeps_words (c : context) :
  justify c = false ->
  real_words (flat_map lo_words (snd (resolve_context c))
              ++ underflow (fst (resolve_context c)))
  = real_words (underflow c).
Proof.
  intros Hj. unfold resolve_context. destruct (underflow c) as [|w u] eqn:E.
  - simpl. rewrite E. reflexivity.
  - pose proof (process_words_keeps_words [] (set_flow false c) Hj) as H.
    destruct (process_words [] (set_flow false c)) as [c' lines].
    cbn [fst snd underflow set_flow] in *. rewrite H, E, app_nil_r. reflexivity.
Qed.

Lemma process_line_keeps_words (line : str) (c c' : context) (out : list line_out) :
  justify c = false ->
  process_line line c = Some (c', out) ->
  justify c' = false /\
  real_words (flat_map lo_words out) ++ real_words (underflow c')
  = real_words (underflow c) ++ line_words line.
Proof.
  intros Hj. rewrite process_line_eq. unfold line_words.
  destruct (guess_prefix (rstrip line)) as [p|]; [|discriminate]. cbv zeta.
  set (words := re_split (skipn (length p) (rstrip line))).
  pose proof (line_context_config p (forallb is_whitespace words) c) as Hc1.
  assert (Hw1 : real_words
            (flat_map lo_words (snd (line_context p (forallb is_whitespace words) c))
             ++ underflow (fst (line_context p (forallb is_whitespace words) c)))
          = real_words (underflow c)).
  { unfold line_context.
    destruct (negb (str_eqb p (next_prefix (prefix c))) || forallb is_whitespace words).
    - pose proof (resolve_context_keeps_words c Hj) as H.
      destruct (resolve_context c) as [c1 flushed]. cbn [fst snd] in *.
      destruct (code (set_prefix p c1)); exact H.
    - cbn [fst snd flat_map]. destruct (code c); reflexivity. }
  destruct (line_context p (forallb is_whitespace words) c) as [c1 flushed].
  cbn [fst snd] in Hc1, Hw1.
  assert (Hj1 : justify c1 = false) by (destruct Hc1 as (-> & _); exact Hj).
  pose proof (process_words_keeps_words words c1 Hj1) as Hw2.
  pose proof (process_words_config words c1) as [Hc2 _].
  destruct (process_words words c1) as [c2 lines]. cbn [fst snd] in Hw2, Hc2.
  intros E. injection E as <- <-. split.
  - destruct Hc2 as (-> & _). exact Hj1.
  - rewrite flat_map_app, real_words_app, <- app_assoc, <- real_words_app, Hw2.
    rewrite real_words_app, app_assoc, <- real_words_app, Hw1. reflexivity.
Qed.

Lemma process_lines_keeps_words (lines : list str) :
  forall (c c' : context) (out : list line_out),
    justify c = false ->
    process_lines lines c = Some (c', out) ->
    justify c' = false /\
    real_words (flat_map lo_words out) ++ real_words (underflow c')
    = real_words (underflow c) ++ flat_map line_words lines.
Proof.
  induction lines as [|line lines IH]; intros c c' out Hj; simpl.
  - intros E. injection E as <- <-. simpl. rewrite app_nil_r. auto.
  - destruct (process_line line c) as [[c1 out1]|] eqn:E1; [|discriminate].
    destruct (process_lines lines c1) as [[c2 out2]|] eqn:E2; [|discriminate].
    intros E. injection E as <- <-.
    destruct (process_line_keeps_words line c c1 out1 Hj E1) as [Hj1 H1].
    destruct (IH c1 c2 out2 Hj1 E2) as [Hj2 H2]. split; [exact Hj2|].
    rewrite flat_map_app, real_words_app, <- app_assoc, H2, app_assoc, H1.
    rewrite <- app_assoc. reflexivity.
Qed.

(** X11: outside justify mode the formatter neither loses, nor adds, nor
    reorders a word: the words of the output lines, in order, are the words
    that were pending at the start followed by the words of the input lines,
    in order.  (Breaking lines, merging them in flow mode and flushing only
    move whitespace.) *)
Theorem words_are_conserved (lines : list str) (c c' : context) (out : list line_out) :
  justify c = false ->
  format_lines lines c = Some (c', out) ->
  real_words (flat_map lo_words out)
  = real_words (underflow c) ++ flat_map line_words lines.
Proof.
  intros Hj. unfold format_lines.
  destruct (process_lines lines c) as [[c1 out1]|] eqn:E1; [|discriminate].
  destruct (process_lines_keeps_words lines c c1 out1 Hj E1) as [Hj1 H1].
  pose proof (resolve_context_keeps_words c1 Hj1) as H2.
  pose proof (resolve_context_clears c1) as Hclear.
  destruct (resolve_context c1) as [c2 out2]. cbn [fst snd] in *.
  intros E. injection E as <- <-.
  rewrite Hclear, app_nil_r in H2.
  rewrite flat_map_app, real_words_app, H2. exact H1.
Qed.

(** X11, witness: a paragraph of two lines reflowed at width 12. *)
Lemma words_are_conserved_witness :
  let lines := [ln "# one two three"; ln "# four five"] in
  let c := initial_context true false false 12 8 in
  exists c' out,
    format_lines lines c = Some (c', out) /\
    real_words (flat_map lo_words out)
    = real_words (underflow c) ++ flat_map line_words lines.
Proof.
  intros lines c.
  destruct (format_lines lines c) as [[c' out]|] eqn:E; [|discriminate].
  exists c', out. split; [reflexivity|].
  apply (words_are_conserved lines c c' out); [reflexivity | exact E].
Defined.

(** ** Prefixes of the lines of a paragraph *)

Lemma next_prefix_idempotent (p : str) :
  next_prefix (next_prefix p) = next_prefix p.
Proof.
  unfold next_prefix at 1.
  destruct (existsb (ascii_eqb "*") (next_prefix p)) eqn:E; [|reflexivity].
  apply existsb_exists in E. destruct E as (ch & Hin & Hc).
  apply ascii_eqb_eq in Hc. subst ch.
  rewrite next_prefix_map in Hin. apply in_map_iff in Hin.
  destruct Hin as (ch & E & _). destruct (ascii_eqb ch "*") eqn:Ec.
  - discriminate.
  - apply ascii_eqb_eq in E. congruence.
Qed.

Lemma print_words_as_line_prefix (words : list token) (c : context) :
  lo_prefix (print_words_as_line words c) = prefix c.
Proof. reflexivity. Qed.

(** X12: of the lines [process_words] writes in one call, the first carries
    the prefix of the context and every later one the continuation prefix
    (the bullet blanked out); the prefix left in the context is one of the
    two, and it is the continuation prefix as soon as two lines were
    written. *)
Theorem process_words_prefixes (words : list token) (c : context) :
  prefixes_of (prefix c) (snd (process_words words c)) /\
  (prefix (fst (process_words words c)) = prefix c \/
   prefix (fst (process_words words c)) = next_prefix (prefix c)) /\
  ((2 <= length (snd (process_words words c)))%nat ->
   prefix (fst (process_words words c)) = next_prefix (prefix c)).
Proof.
  apply (process_words_induction
           (fun words c r =>
              prefixes_of (prefix c) (snd r) /\
              (prefix (fst r) = prefix c \/ prefix (fst r) = next_prefix (prefix c)) /\
              ((2 <= length (snd r))%nat -> prefix (fst r) = next_prefix (prefix c)))).
  clear words c. intros words c IH.
  rewrite process_words_eq. cbv zeta.
  destruct (underflow c ++ words) as [|first rest] eqn:Ews.
  - cbn [fst snd length prefixes_of]. split; [split; [reflexivity | constructor]|].
    split; [left; reflexivity | lia].
  - destruct (find_overflow rest 1 _ _) as [k|] eqn:Ek.
    + destruct (length (first :: rest) <=? _)%nat.
      * cbn [fst snd prefixes_of]. split; [split; [reflexivity | constructor]|].
        split; [right; reflexivity | intros _; reflexivity].
      * match goal with
        | |- context [process_words ?w ?c1] =>
            specialize (IH w c1); destruct (process_words w c1) as [c' lines]
        end.
        cbn [fst snd] in *.
        destruct IH as (Hp & Hc & _); [words_decrease|].
        change (prefix (set_prefix (next_prefix (prefix (set_underflow [] c)))
                          (set_underflow [] c)))
          with (next_prefix (prefix c)) in Hp, Hc.
        rewrite next_prefix_idempotent in Hc.
        assert (Hc' : prefix c' = next_prefix (prefix c)) by (destruct Hc; assumption).
        split; [|split; [right; exact Hc' | intros _; exact Hc']].
        cbn [prefixes_of]. split; [reflexivity|].
        destruct lines as [|l ls]; [constructor|].
        destruct Hp as [Hl Hls]. constructor; [exact Hl|].
        rewrite next_prefix_idempotent in Hls. exact Hls.
    + destruct (flow (set_underflow [] c)); cbn [fst snd length prefixes_of].
      * split; [exact I|]. split; [left; reflexivity | lia].
      * split; [split; [reflexivity | constructor]|].
        split; [left; reflexivity | lia].
Qed.

(** ** Lines that fit *)

Lemma rstrip_ends_with_word (s : str) : ends_with_word (rstrip s).
Proof.
  induction s as [|ch s IH]; simpl; [left; reflexivity|].
  destruct (rstrip s) as [|x r] eqn:E.
  - destruct (in_whitespace ch) eqn:Hc; [left; reflexivity|].
    right. exists [], ch. split; [reflexivity | exact Hc].
  - destruct IH as [IH | (init & last & IH & Hl)]; [discriminate|].
    right. exists (ch :: init), last. rewrite IH. split; [reflexivity | exact Hl].
Qed.

Lemma skipn_ends_with_word (n : nat) (s : str) :
  ends_with_word s -> ends_with_word (skipn n s).
Proof.
  intros [-> | (init & ch & -> & Hc)]; [left; apply skipn_nil|].
  rewrite skipn_app. destruct (n - length init)%nat as [|m] eqn:E.
  - right. exists (skipn n init), ch. split; [reflexivity | exact Hc].
  - left. rewrite skipn_all2 by lia. simpl. apply skipn_nil.
Qed.

(** When the text ends with a word, the trailing tokens that are not printed
    are empty. *)
Lemma printable_words_concat (words : list token) :
  ends_with_word (concat words) ->
  concat (printable_words words [] []) = concat words.
Proof.
  intros Hend. destruct (print_words_split words) as (dropped & E & Hd).
  apply forallb_concat in Hd. rewrite E in Hend at 1. rewrite E at 2.
  rewrite concat_app in *.
  destruct (concat dropped) as [|x d] eqn:Ed; [rewrite app_nil_r; reflexivity|].
  exfalso. destruct Hend as [Hend | (init & ch & Hend & Hc)].
  - apply app_eq_nil in Hend. destruct Hend as [_ Hend]. discriminate.
  - assert (Hin : In ch (x :: d)).
    { destruct (exists_last (l := x :: d) ltac:(discriminate)) as (d' & y & Ey).
      rewrite Ey in Hend |- *. rewrite app_assoc in Hend.
      apply app_inj_tail in Hend. destruct Hend as [_ ->].
      apply in_or_app. right. left. reflexivity. }
    unfold is_whitespace in Hd. rewrite forallb_forall in Hd.
    rewrite (Hd ch Hin) in Hc. discriminate.
Qed.

Lemma re_split_loop_nonempty (s : str) :
  forall (gap : bool) (cur : str), re_split_loop s gap cur <> [].
Proof.
  induction s as [|ch s IH]; intros gap cur; simpl.
  - destruct gap; discriminate.
  - destruct (Bool.eqb (in_whitespace ch) gap); [apply IH | discriminate].
Qed.

(** The scan finds no break when all the words fit. *)
Lemma find_overflow_fits (rest : list token) (c : context) :
  0 < tabstop c ->
  forall (idx : nat) (cols : Z),
    add_cols (concat rest) cols c <= width c ->
    find_overflow rest idx cols c = None.
Proof.
  intros Hts. induction rest as [|w rest IH]; intros idx cols H; simpl find_overflow.
  - reflexivity.
  - rewrite add_cols_concat_cons in H.
    pose proof (add_cols_ge c Hts (concat rest) (add_cols w cols c)) as Hge.
    destruct (Z.gtb_spec (add_cols w cols c) (width c)) as [E|E]; [lia|].
    apply IH. exact H.
Qed.

Lemma set_prefix_same (c : context) : set_prefix (prefix c) c = c.
Proof. destruct c; reflexivity. Qed.

(** A line that fits, outside flow and code mode, is written back as it
    is. *)
Lemma process_line_fitting (line p : str) (c : context) :
  flow c = false -> code c = false -> underflow c = [] -> 0 < tabstop c ->
  guess_prefix (rstrip line) = Some p ->
  prefix c = p \/ next_prefix (prefix c) <> p ->
  add_cols (rstrip line) 0 c <= width c ->
  exists l, process_line line c = Some (set_prefix p c, [l]) /\
            line_text l = rstrip line.
Proof.
  intros Hflow Hcode Hunder Hts Hp Hprefix Hfit.
  assert (Hpre : p = firstn (length p) (rstrip line)).
  { destruct (guess_prefix_rstrip line) as (k & Hk). rewrite Hp in Hk.
    injection Hk as ->. rewrite length_firstn.
    destruct (Nat.le_ge_cases k (length (rstrip line))) as [Hk|Hk].
    - rewrite Nat.min_l by exact Hk. reflexivity.
    - rewrite Nat.min_r by exact Hk. rewrite firstn_all.
      apply firstn_all2. exact Hk. }
  set (body := skipn (length p) (rstrip line)) in *.
  assert (Hline : rstrip line = p ++ body).
  { rewrite Hpre at 1. unfold body. symmetry. apply firstn_skipn. }
  assert (Hbody : ends_with_word body).
  { apply skipn_ends_with_word, rstrip_ends_with_word. }
  rewrite process_line_eq, Hp. cbv zeta. fold body.
  set (words := re_split body).
  assert (Hwords : concat words = body) by apply re_split_concat.
  assert (Hc1 : line_context p (forallb is_whitespace words) c = (set_prefix p c, [])).
  { unfold line_context.
    destruct (negb (str_eqb p (next_prefix (prefix c))) || forallb is_whitespace words)
      eqn:E.
    - unfold resolve_context. rewrite Hunder. cbn [code set_prefix]. rewrite Hcode.
      reflexivity.
    - rewrite Hcode. apply orb_false_iff in E. destruct E as [E _].
      apply negb_false_iff, str_eqb_eq in E.
      destruct Hprefix as [<- | Hne]; [|congruence].
      rewrite set_prefix_same. reflexivity. }
  rewrite Hc1. set (c1 := set_prefix p c).
  assert (Hc0 : set_underflow [] c1 = c1) by (apply set_underflow_nil_id; exact Hunder).
  rewrite process_words_eq. cbv zeta. rewrite Hc0.
  change (underflow c1) with (underflow c). rewrite Hunder. cbn [app].
  destruct words as [|first rest] eqn:Ew.
  { exfalso. exact (re_split_loop_nonempty body false [] Ew). }
  assert (Hnone : find_overflow rest 1 (start_cols first c1) c1 = None).
  { apply find_overflow_fits; [exact Hts|].
    unfold start_cols. rewrite <- !add_cols_app.
    change (prefix c1) with p. change (width c1) with (width c).
    rewrite (add_cols_tabstop _ _ c1 c) by reflexivity.
    change (first ++ concat rest) with (concat (first :: rest)).
    rewrite Hwords, <- Hline. exact Hfit. }
  rewrite Hnone. change (flow c1) with (flow c). rewrite Hflow.
  eexists. split; [reflexivity|].
  rewrite print_words_as_line_plain
    by (change (flow c1) with (flow c); rewrite Hflow; apply andb_false_r).
  unfold line_text. cbn [lo_prefix lo_words]. change (prefix c1) with p.
  rewrite printable_words_concat by (rewrite Hwords; exact Hbody).
  rewrite Hwords. symmetry. exact Hline.
Qed.

(** X13: a line that fits is left alone.  Outside flow and code mode, with
    nothing pending, a line whose text (trailing whitespace removed) takes at
    most [width] columns is written back as exactly one line with exactly
    that text, and its prefix becomes the prefix of the context.  The
    condition on the prefix excludes the continuation lines of a bullet,
    which are given the bullet's prefix. *)
Theorem fitting_line_unchanged (line p : str) (c : context) :
  flow c = false -> code c = false -> underflow c = [] -> 0 < tabstop c ->
  guess_prefix (rstrip line) = Some p ->
  prefix c = p \/ next_prefix (prefix c) <> p ->
  add_cols (rstrip line) 0 c <= width c ->
  exists l, process_line line c = Some (set_prefix p c, [l]) /\
            line_text l = rstrip line.
Proof. apply process_line_fitting. Qed.

(** X13, witness: a comment that fits in 20 columns. *)
Lemma fitting_line_unchanged_witness :
  let c := initial_context false false false 20 8 in
  exists l, process_line (ln "  # some words") c = Some (set_prefix (py "  # ") c, [l]) /\
            line_text l = rstrip (ln "  # some words").
Proof.
  intros c.
  apply (fitting_line_unchanged (ln "  # some words") (py "  # ") c);
    try reflexivity; try (vm_compute; congruence).
  right. vm_compute. discriminate.
Defined.

(** ** The shape of a prefix *)

Lemma skip_whitespace_chars_spec (rest : str) :
  forall i, exists n,
    skip_whitespace_chars rest i = (i + n)%nat /\ (n <= length rest)%nat /\
    is_whitespace (firstn n rest) = true /\
    (forall ch, nth_error rest n = Some ch -> in_whitespace ch = false).
Proof.
  induction rest as [|c rest IH]; intros i; simpl skip_whitespace_chars.
  - exists 0%nat. repeat split; [lia | simpl; lia | intros ch H; discriminate].
  - destruct (in_whitespace c) eqn:Hc.
    + destruct (IH (S i)) as (n & E & Hn & Hw & Hstop).
      exists (S n). split; [lia|]. split; [simpl; lia|]. split.
      * simpl. unfold is_whitespace in *. simpl. rewrite Hc. exact Hw.
      * exact Hstop.
    + exists 0%nat. split; [lia|]. split; [simpl; lia|]. split; [reflexivity|].
      intros ch H. injection H as <-. exact Hc.
Qed.

Lemma slice_skipn (i n : nat) (s : str) : slice i (i + n) s = firstn n (skipn i s).
Proof. unfold slice. f_equal. lia. Qed.

Lemma firstn_past (i n : nat) (s : str) :
  (i <= length s)%nat -> firstn (i + n) s = firstn i s ++ firstn n (skipn i s).
Proof.
  intros Hi. rewrite <- (firstn_skipn i s) at 1.
  rewrite firstn_app, length_firstn, Nat.min_l by exact Hi.
  rewrite firstn_firstn. f_equal; f_equal; lia.
Qed.

(** X17: a prefix holds no text.  Whatever [guess_prefix] returns is
    indentation (whitespace only) followed by nothing, by one of the comment
    leaders [// ], [//], [# ], [#], or by an asterisk and the whitespace
    after it. *)
Theorem guess_prefix_shape (line p : str) :
  guess_prefix line = Some p ->
  exists indent marker,
    p = indent ++ marker /\ is_whitespace indent = true /\ is_marker marker.
Proof.
  unfold guess_prefix, is_marker.
  destruct (Nat.eqb (length line) 0).
  { intros E. injection E as <-. exists [], []. auto. }
  cbv zeta.
  destruct (skip_whitespace_chars_spec line 0) as (i & Ei & Hi & Hw & Hstop).
  rewrite Ei. simpl Nat.add. rewrite !slice_from_0, !slice_skipn.
  rewrite !(firstn_past i _ line Hi).
  set (indent := firstn i line) in *. set (tail := skipn i line).
  destruct (str_eqb (firstn 3 tail) (py "// ")) eqn:E1.
  { apply str_eqb_eq in E1. rewrite E1. intros E. injection E as <-.
    exists indent, (py "// ").
    split; [reflexivity|]. split; [exact Hw|]. right. left. reflexivity. }
  destruct (str_eqb (firstn 2 tail) (py "//")) eqn:E2.
  { apply str_eqb_eq in E2. rewrite E2. intros E. injection E as <-.
    exists indent, (py "//").
    split; [reflexivity|]. split; [exact Hw|]. do 2 right. left. reflexivity. }
  destruct (str_eqb (firstn 2 tail) (py "# ")) eqn:E3.
  { apply str_eqb_eq in E3. rewrite E3. intros E. injection E as <-.
    exists indent, (py "# ").
    split; [reflexivity|]. split; [exact Hw|]. do 3 right. left. reflexivity. }
  destruct (nth_error line i) as [c|] eqn:En; [|discriminate].
  assert (Et : exists tail', tail = c :: tail').
  { unfold tail. exists (skipn (S i) line).
    clear - En. revert i En. induction line as [|x l IH]; intros [|i] En;
      try discriminate.
    - injection En as ->. reflexivity.
    - simpl. apply IH. exact En. }
  destruct Et as (tail' & Et).
  destruct (ascii_eqb c "#") eqn:Ec.
  { apply ascii_eqb_eq in Ec. subst c.
    destruct (str_eqb (firstn 7 line) (py "#ifndef"));
      [intros E; injection E as <-; exists [], []; auto|].
    destruct (str_eqb (firstn 6 line) (py "#ifdef"));
      [intros E; injection E as <-; exists [], []; auto|].
    destruct (str_eqb (firstn 6 line) (py "#endif"));
      [intros E; injection E as <-; exists [], []; auto|].
    intros E. injection E as <-. rewrite Et. exists indent, (py "#").
    split; [reflexivity|]. split; [exact Hw|]. do 4 right. left. reflexivity. }
  destruct (ascii_eqb c "*") eqn:Es.
  { apply ascii_eqb_eq in Es. subst c.
    assert (Hi1 : (i + 1 <= length line)%nat).
    { assert (i < length line)%nat; [|lia].
      apply nth_error_Some. rewrite En. discriminate. }
    destruct (skip_whitespace_chars_spec (skipn (i + 1) line) (i + 1))
      as (n & En' & _ & Hgap & _).
    rewrite En'. intros E. injection E as <-.
    rewrite <- Nat.add_assoc, (firstn_past i _ line Hi). fold indent tail.
    exists indent, (firstn (1 + n) tail). split; [reflexivity|]. split; [exact Hw|].
    do 5 right. exists (firstn n (skipn (i + 1) line)). split; [|exact Hgap].
    unfold tail in Et |- *. rewrite Et. simpl firstn. f_equal. f_equal.
    replace (i + 1)%nat with (1 + i)%nat by lia.
    rewrite <- skipn_skipn. rewrite Et. reflexivity. }
  intros E. injection E as <-. exists indent, [].
  split; [symmetry; apply app_nil_r|]. split; [exact Hw | left; reflexivity].
Qed.

(** X17, witness: an indented bullet. *)
Lemma guess_prefix_shape_witness :
  exists indent marker,
    py "  * " = indent ++ marker /\ is_whitespace indent = true /\ is_marker marker.
Proof.
  apply (guess_prefix_shape (py "  * item two") (py "  * ")). reflexivity.
Defined.

(** ** The modes of a run *)

Lemma resolve_context_flow (c : context) :
  underflow c = [] \/ flow c = true ->
  flow (fst (resolve_context c)) = flow c.
Proof.
  intros Hinv. unfold resolve_context. destruct (underflow c) as [|w u] eqn:E.
  - reflexivity.
  - destruct Hinv as [Hinv|Hinv]; [discriminate|].
    destruct (process_words [] (set_flow false c)) as [c' lines].
    simpl. symmetry. exact Hinv.
Qed.

Lemma line_context_modes (p : str) (aw : bool) (c : context) :
  (code c = false -> underflow c = [] \/ flow c = true ->
   flow (fst (line_context p aw c)) = flow c) /\
  (code c = true -> flow (fst (line_context p aw c)) = negb (is_whitespace p)).
Proof.
  unfold line_context.
  destruct (negb (str_eqb p (next_prefix (prefix c))) || aw).
  - pose proof (resolve_context_config c) as (_ & _ & _ & Hcode).
    pose proof (resolve_context_flow c) as Hflow.
    destruct (resolve_context c) as [cr flushed]. cbn [fst snd] in *.
    change (code (set_prefix p cr)) with (code cr). rewrite Hcode.
    destruct (code c); split; intros H; try discriminate.
    + reflexivity.
    + intros Hinv. simpl. apply Hflow. exact Hinv.
  - destruct (code c); split; intros H; try discriminate; intros; reflexivity.
Qed.

Lemma process_line_modes (line : str) (c c' : context) (out : list line_out) :
  process_line line c = Some (c', out) ->
  same_config c c' /\
  (underflow c' = [] \/ flow c' = true) /\
  (flow c' = false -> out <> []) /\
  (code c = false -> underflow c = [] \/ flow c = true -> flow c' = flow c) /\
  (code c = true ->
   forall p, guess_prefix (rstrip line) = Some p -> flow c' = negb (is_whitespace p)).
Proof.
  rewrite process_line_eq.
  destruct (guess_prefix (rstrip line)) as [p|]; [|discriminate]. cbv zeta.
  set (words := re_split (skipn (length p) (rstrip line))).
  pose proof (line_context_config p (forallb is_whitespace words) c) as Hc1.
  pose proof (line_context_modes p (forallb is_whitespace words) c) as [Hm1 Hm2].
  destruct (line_context p (forallb is_whitespace words) c) as [c1 flushed].
  cbn [fst] in Hc1, Hm1, Hm2.
  pose proof (process_words_config words c1) as [Hc2 Hf2].
  pose proof (process_words_underflow_flow words c1) as Hu2.
  pose proof (process_words_emits words c1) as He2.
  destruct (process_words words c1) as [c2 lines]. cbn [fst snd] in *.
  intros E. injection E as <- <-.
  split; [eapply same_config_trans; eassumption|]. split; [|split; [|split]].
  - destruct (underflow c2) as [|w u]; [left; reflexivity|].
    right. rewrite Hf2. apply Hu2. discriminate.
  - intros Hf Happ. apply app_eq_nil in Happ. destruct Happ as [_ Happ].
    apply He2; [congruence | exact Happ].
  - intros Hcode Hinv. rewrite Hf2. apply Hm1; assumption.
  - intros Hcode q Hq. injection Hq as <-. rewrite Hf2. apply Hm2. exact Hcode.
Qed.

Lemma process_lines_modes (lines : list str) :
  forall (c c' : context) (out : list line_out),
    underflow c = [] \/ flow c = true ->
    process_lines lines c = Some (c', out) ->
    same_config c c' /\
    (underflow c' = [] \/ flow c' = true) /\
    (code c = false -> flow c' = flow c) /\
    (code c = false -> flow c = false -> (length lines <= length out)%nat).
Proof.
  induction lines as [|line lines IH]; intros c c' out Hinv; simpl.
  - intros E. injection E as <- <-.
    split; [apply same_config_refl|]. split; [exact Hinv|]. split; [reflexivity|].
    intros _ _. simpl. lia.
  - destruct (process_line line c) as [[c1 out1]|] eqn:E1; [|discriminate].
    destruct (process_lines lines c1) as [[c2 out2]|] eqn:E2; [|discriminate].
    intros E. injection E as <- <-.
    destruct (process_line_modes line c c1 out1 E1) as (Hc1 & Hinv1 & Hout1 & Hf1 & _).
    destruct (IH c1 c2 out2 Hinv1 E2) as (Hc2 & Hinv2 & Hf2 & Hlen2).
    assert (Hcode : code c1 = code c) by (destruct Hc1 as (_ & _ & _ & H); exact H).
    split; [eapply same_config_trans; eassumption|]. split; [exact Hinv2|].
    split.
    + intros Hc. rewrite Hf2 by congruence. apply Hf1; assumption.
    + intros Hc Hf. rewrite length_app.
      assert (Hf' : flow c1 = false) by (rewrite Hf1; assumption).
      specialize (Hlen2 ltac:(congruence) Hf'). specialize (Hout1 Hf').
      destruct out1; [contradiction|]. simpl. lia.
Qed.

(** X18: the modes of a run.  The script refuses exactly the two
    combinations of lines 227-230.  A run it accepts starts every file with
    an empty prefix and nothing pending; whatever the file, the
    configuration at the end is the one given on the command line, flow mode
    is what [-f] or [-j] asked for unless [--code] switches it, and justify
    mode is on only together with flow mode and never in code mode. *)
Theorem accepted_run_modes (args : arguments) (lines : list str) :
  match snd (starting_context args) with
  | inl _ =>
      args_output args && args_overwrite args = true \/
      args_code args && (args_flow args || args_justify args) = true
  | inr c0 =>
      args_output args && args_overwrite args = false /\
      args_code args && (args_flow args || args_justify args) = false /\
      prefix c0 = [] /\ underflow c0 = [] /\
      forall c' out,
        format_lines lines c0 = Some (c', out) ->
        justify c' = args_justify args /\ code c' = args_code args /\
        width c' = args_width args /\ tabstop c' = args_tabstop args /\
        (args_code args = false -> flow c' = args_flow args || args_justify args) /\
        (justify c' = true -> flow c' = true /\ code c' = false)
  end.
Proof.
  unfold starting_context. cbn [snd].
  destruct (args_output args && args_overwrite args) eqn:Eo; [left; reflexivity|].
  destruct (args_code args && (args_flow args || args_justify args)) eqn:Ec;
    [right; reflexivity|].
  cbv zeta.
  set (c0 := mkContext [] _ _ _ _ _ []).
  split; [reflexivity|]. split; [reflexivity|]. split; [reflexivity|].
  split; [reflexivity|].
  intros c' out. unfold format_lines.
  destruct (process_lines lines c0) as [[c1 out1]|] eqn:E1; [|discriminate].
  destruct (process_lines_modes lines c0 c1 out1 (or_introl eq_refl) E1)
    as (Hc1 & Hinv1 & Hf1 & _).
  pose proof (resolve_context_config c1) as Hc2.
  pose proof (resolve_context_flow c1 Hinv1) as Hf2.
  destruct (resolve_context c1) as [c2 out2]. cbn [fst] in Hc2, Hf2.
  intros E. injection E as <- <-.
  destruct (same_config_trans _ _ _ Hc1 Hc2) as (Hj & Hw & Ht & Hcd).
  change (justify c0) with (args_justify args) in Hj.
  change (width c0) with (args_width args) in Hw.
  change (tabstop c0) with (args_tabstop args) in Ht.
  change (code c0) with (args_code args) in Hcd, Hf1.
  assert (Hflow : args_code args = false ->
                  flow c2 = args_flow args || args_justify args).
  { intros Hcode. rewrite Hf2, (Hf1 Hcode). unfold c0. cbn [flow].
    destruct (args_justify args), (args_flow args); reflexivity. }
  split; [exact Hj|]. split; [exact Hcd|]. split; [exact Hw|]. split; [exact Ht|].
  split; [exact Hflow|].
  intros Hjt. rewrite Hj in Hjt. rewrite Hcd.
  destruct (args_code args) eqn:Hcode.
  - rewrite Hjt, orb_true_r in Ec. discriminate.
  - split; [|reflexivity]. rewrite (Hflow eq_refl), Hjt. apply orb_true_r.
Qed.

(** X19: code mode switches flow line by line.  After a line is processed in
    code mode, flow mode is on exactly when the prefix of that line is not
    whitespace (a comment leader or a bullet); a line with a whitespace
    prefix, that is indented code, is written at once: something is written
    and nothing is left pending. *)
Theorem code_mode_switches_flow (line p : str) (c c' : context) (out : list line_out) :
  code c = true ->
  guess_prefix (rstrip line) = Some p ->
  process_line line c = Some (c', out) ->
  code c' = true /\
  flow c' = negb (is_whitespace p) /\
  (is_whitespace p = true -> underflow c' = [] /\ out <> []).
Proof.
  intros Hcode Hp E.
  destruct (process_line_modes line c c' out E) as (Hc & Hinv & Hout & _ & Hf).
  specialize (Hf Hcode p Hp).
  split; [destruct Hc as (_ & _ & _ & ->); exact Hcode|]. split; [exact Hf|].
  intros Hw. rewrite Hw in Hf. simpl in Hf. split; [|apply Hout; exact Hf].
  destruct Hinv as [Hinv|Hinv]; [exact Hinv | congruence].
Qed.

(** X19, witness: a line of indented code after a comment, in code mode. *)
Lemma code_mode_switches_flow_witness :
  let c := mkContext (py "# ") true false 40 8 true [py "note"; [space]] in
  exists c' out,
    process_line (ln "    x = 1") c = Some (c', out) /\
    code c' = true /\
    flow c' = negb (is_whitespace (py "    ")) /\
    (is_whitespace (py "    ") = true -> underflow c' = [] /\ out <> []).
Proof.
  intros c.
  destruct (process_line (ln "    x = 1") c) as [[c' out]|] eqn:E; [|discriminate].
  exists c', out. split; [reflexivity|].
  apply (code_mode_switches_flow (ln "    x = 1") (py "    ") c c' out);
    [reflexivity | reflexivity | exact E].
Defined.

(** X20: without flow mode lines are never merged.  In a run with neither
    [-f], [-j] nor [--code], every input line gives at least one output
    line, flow mode is still off at the end and nothing is pending. *)
Theorem lines_not_merged_without_flow
  (lines : list str) (c c' : context) (out : list line_out) :
  flow c = false -> code c = false -> underflow c = [] ->
  format_lines lines c = Some (c', out) ->
  flow c' = false /\ underflow c' = [] /\ (length lines <= length out)%nat.
Proof.
  intros Hflow Hcode Hunder. unfold format_lines.
  destruct (process_lines lines c) as [[c1 out1]|] eqn:E1; [|discriminate].
  destruct (process_lines_modes lines c c1 out1 (or_introl Hunder) E1)
    as (_ & Hinv1 & Hf1 & Hlen).
  assert (Hf1' : flow c1 = false) by (rewrite (Hf1 Hcode); exact Hflow).
  assert (Hu1 : underflow c1 = []) by (destruct Hinv1; [assumption | congruence]).
  unfold resolve_context. rewrite Hu1.
  intros E. injection E as <- <-.
  split; [exact Hf1'|]. split; [exact Hu1|].
  rewrite app_nil_r. apply Hlen; assumption.
Qed.

(** X20, witness: three lines, one of them too long for the width. *)
Lemma lines_not_merged_without_flow_witness :
  let lines := [ln "one two three four"; ln ""; ln "five"] in
  let c := initial_context false false false 10 8 in
  exists c' out,
    format_lines lines c = Some (c', out) /\
    flow c' = false /\ underflow c' = [] /\ (length lines <= length out)%nat.
Proof.
  intros lines c.
  destruct (format_lines lines c) as [[c' out]|] eqn:E; [|discriminate].
  exists c', out. split; [reflexivity|].
  apply (lines_not_merged_without_flow lines c c' out);
    [reflexivity | reflexivity | reflexivity | exact E].
Defined.

(** ** The end of a paragraph *)

Lemma find_overflow_config (rest : list token) (c c' : context) :
  tabstop c = tabstop c' -> width c = width c' ->
  forall idx cols, find_overflow rest idx cols c = find_overflow rest idx cols c'.
Proof.
  intros Ht Hw. induction rest as [|w rest IH]; intros idx cols; simpl; [reflexivity|].
  rewrite (add_cols_tabstop w cols c c' Ht), Hw.
  destruct (add_cols w cols c' >? width c'); [reflexivity | apply IH].
Qed.

Lemma print_words_as_line_no_flow (ws : list token) (c c' : context) :
  flow c = false -> flow c' = false -> prefix c = prefix c' ->
  print_words_as_line ws c = print_words_as_line ws c'.
Proof.
  intros Hf Hf' Hp.
  rewrite !print_words_as_line_plain by (rewrite ?Hf, ?Hf'; apply andb_false_r).
  rewrite Hp. reflexivity.
Qed.

(** Outside flow mode [process_words] does not look at the justify switch. *)
Lemma process_words_ignores_justify (j : bool) (words : list token) (c : context) :
  flow c = false ->
  process_words words (set_justify j c)
  = (set_justify j (fst (process_words words c)), snd (process_words words c)).
Proof.
  apply (process_words_induction
           (fun words c r => flow c = false ->
              process_words words (set_justify j c) = (set_justify j (fst r), snd r))).
  clear words c. intros words c IH Hf.
  rewrite (process_words_eq words c), (process_words_eq words (set_justify j c)).
  cbv zeta. change (underflow (set_justify j c)) with (underflow c).
  set (c0 := set_underflow [] c).
  change (set_underflow [] (set_justify j c)) with (set_justify j c0).
  assert (Hprint : forall ws, print_words_as_line ws (set_justify j c0)
                              = print_words_as_line ws c0).
  { intros ws. apply print_words_as_line_no_flow; [exact Hf | exact Hf | reflexivity]. }
  destruct (underflow c ++ words) as [|first rest] eqn:Ews.
  - cbn [fst snd]. rewrite Hprint. reflexivity.
  - change (start_cols first (set_justify j c0)) with (start_cols first c0).
    rewrite (find_overflow_config rest (set_justify j c0) c0 eq_refl eq_refl).
    destruct (find_overflow rest 1 (start_cols first c0) c0) as [k|] eqn:Ek.
    + rewrite Hprint.
      change (set_prefix (next_prefix (prefix (set_justify j c0))) (set_justify j c0))
        with (set_justify j (set_prefix (next_prefix (prefix c0)) c0)).
      destruct (length (first :: rest) <=? _)%nat; [reflexivity|].
      rewrite IH; [|words_decrease | exact Hf].
      destruct (process_words _ (set_prefix (next_prefix (prefix c0)) c0)) as [c' lines].
      reflexivity.
    + change (flow (set_justify j c0)) with (flow c). change (flow c0) with (flow c).
      rewrite Hf, Hprint. reflexivity.
Qed.

(** X15: the flush that ends a paragraph does not justify.  Whether the
    justify switch is set or not, [resolve_context] writes the same lines:
    the pending words, which are the last line of their paragraph, are
    written as they are, without fillers and with their tabs. *)
Theorem flush_ignores_justify (j : bool) (c : context) :
  resolve_context (set_justify j c)
  = (set_justify j (fst (resolve_context c)), snd (resolve_context c)).
Proof.
  unfold resolve_context. change (underflow (set_justify j c)) with (underflow c).
  destruct (underflow c) as [|w u]; [reflexivity|].
  change (set_flow false (set_justify j c)) with (set_justify j (set_flow false c)).
  rewrite process_words_ignores_justify by reflexivity.
  destruct (process_words [] (set_flow false c)) as [c' lines]. reflexivity.
Qed.

(** ** Justified lines *)

Lemma insert_fillers_real_words (count : nat) :
  forall i deficit original_words ws,
    real_words (insert_fillers count i deficit original_words ws) = real_words ws.
Proof.
  induction count as [|count IH]; intros i deficit original_words ws;
    cbn [insert_fillers]; [reflexivity|].
  rewrite IH.
  destruct (list_insert_concat (filler_index original_words i deficit) [space] ws)
    as (a & b & E & ->).
  rewrite E, !real_words_app. reflexivity.
Qed.

(** X14: what justification does to a line.  In justify mode, when the
    words of a line take at most [width] columns, the words written after the
    prefix hold no tab, have exactly [width] characters in all, and are the
    printed words with their tabs expanded plus one single-space filler for
    each missing column; the words that are not whitespace are those of the
    tab-expanded line, in the same order. *)
Theorem justified_line_shape (words : list token) (c : context) :
  justify c = true -> flow c = true ->
  let printed := fst (retab_words (printable_words words [] []) 0 c) in
  let deficit := width c - snd (retab_words (printable_words words [] []) 0 c) in
  0 <= deficit ->
  let l := print_words_as_line words c in
  ~ In tab (concat (lo_words l)) /\
  Z.of_nat (length (concat (lo_words l))) = width c /\
  length (lo_words l) = (length printed + Z.to_nat deficit)%nat /\
  real_words (lo_words l) = real_words printed.
Proof.
  intros Hj Hf. unfold print_words_as_line. rewrite Hj, Hf. simpl andb. cbv iota.
  destruct (retab_words (printable_words words [] []) 0 c) as [pw cols] eqn:E.
  cbn [fst snd lo_words]. intros Hdef.
  destruct (retab_words_spec _ c _ _ _ E) as (Htab & Hcols & _).
  destruct (insert_fillers_spec (Z.to_nat (width c - cols)) 0 (width c - cols)
              (Z.of_nat (length pw)) pw (not_in_concat pw Htab)) as (H1 & H2 & H3).
  split; [exact H1|]. split; [|split; [exact H3|apply insert_fillers_real_words]].
  unfold token, str in *. rewrite H2. lia.
Qed.

(** X14, witness: three words justified to 12 columns. *)
Lemma justified_line_shape_witness :
  let c := initial_context true true false 12 8 in
  let words := [py "aa"; [space]; py "bb"; [space]; py "cc"; [space]] in
  let l := print_words_as_line words c in
  ~ In tab (concat (lo_words l)) /\
  Z.of_nat (length (concat (lo_words l))) = width c /\
  length (lo_words l)
  = (length (fst (retab_words (printable_words words [] []) 0 c))
     + Z.to_nat (width c - snd (retab_words (printable_words words [] []) 0 c)))%nat /\
  real_words (lo_words l) = real_words (fst (retab_words (printable_words words [] []) 0 c)).
Proof.
  intros c words.
  apply (justified_line_shape words c); [reflexivity | reflexivity | vm_compute; discriminate].
Defined.

(** ** Where a line is broken *)

(** X21: lines are filled greedily.  When the words given to
    [process_words] do not all fit after the prefix, the first line written
    holds the words before some index [k], the word at [k] does not fit
    behind them any more, and (unless only the first word was kept, which is
    placed unconditionally) the words before [k] do fit. *)
Theorem first_line_is_greedy (words : list token) (c : context) :
  0 < tabstop c -> underflow c = [] -> (2 <= length words)%nat ->
  width c < add_cols (concat words) (add_cols (prefix c) 0 c) c ->
  exists k lines,
    (1 <= k < length words)%nat /\
    snd (process_words words c) = print_words_as_line (firstn k words) c :: lines /\
    width c < add_cols (concat (firstn (S k) words)) (add_cols (prefix c) 0 c) c /\
    (k = 1%nat \/
     add_cols (concat (firstn k words)) (add_cols (prefix c) 0 c) c <= width c).
Proof.
  intros Hts Hu Hlen Hwide. rewrite process_words_eq. cbv zeta.
  rewrite Hu, (set_underflow_nil_id c Hu). cbn [app].
  destruct words as [|first rest]; [simpl in Hlen; lia|].
  rewrite add_cols_concat_cons in Hwide. fold (start_cols first c) in Hwide.
  destruct (find_overflow rest 1 (start_cols first c) c) as [k|] eqn:Ek.
  - destruct (find_overflow_some rest 1 _ c k Ek) as (n & -> & Hn & Hfit & Hover).
    exists (1 + n)%nat.
    assert (Hrest : exists lines,
               snd (if (length (first :: rest)
                        <=? skip_whitespace_words (skipn (1 + n) (first :: rest)) (1 + n))%nat
                    then (set_prefix (next_prefix (prefix c)) c,
                          [print_words_as_line (firstn (1 + n) (first :: rest)) c])
                    else let (c', lines) :=
                           process_words
                             (skipn (skip_whitespace_words
                                       (skipn (1 + n) (first :: rest)) (1 + n))
                                (first :: rest))
                             (set_prefix (next_prefix (prefix c)) c) in
                         (c', print_words_as_line (firstn (1 + n) (first :: rest)) c
                              :: lines))
               = print_words_as_line (firstn (1 + n) (first :: rest)) c :: lines).
    { destruct (_ <=? _)%nat; [exists []; reflexivity|].
      destruct (process_words _ _) as [c' lines]. exists lines. reflexivity. }
    destruct Hrest as (lines & Hlines). exists lines.
    split; [simpl; lia|]. split; [exact Hlines|]. split.
    + change (firstn (S (1 + n)) (first :: rest)) with (first :: firstn (S n) rest).
      rewrite add_cols_concat_cons. exact Hover.
    + destruct Hfit as [-> | Hfit]; [left; reflexivity|]. right.
      change (firstn (1 + n) (first :: rest)) with (first :: firstn n rest).
      rewrite add_cols_concat_cons. exact Hfit.
  - exfalso. destruct (find_overflow_none rest 1 _ c Ek) as [-> | Hfit].
    + simpl in Hlen. lia.
    + lia.
Qed.

(** X21, witness: four words at width 8. *)
Lemma first_line_is_greedy_witness :
  let c := initial_context false false false 8 8 in
  let words := [py "aaa"; [space]; py "bbb"; [space]; py "ccc"] in
  exists k lines,
    (1 <= k < length words)%nat /\
    snd (process_words words c) = print_words_as_line (firstn k words) c :: lines /\
    width c < add_cols (concat (firstn (S k) words)) (add_cols (prefix c) 0 c) c /\
    (k = 1%nat \/
     add_cols (concat (firstn k words)) (add_cols (prefix c) 0 c) c <= width c).
Proof.
  intros c words.
  apply (first_line_is_greedy words c);
    [reflexivity | reflexivity | simpl; lia | vm_compute; reflexivity].
Defined.

(** ** The margins of a justified line *)

Module Binary64Bounds.
Import Binary64.

(** [int(x)] of a non-negative double of value at most [B]. *)
Lemma py_int_at_most (x : spec_float) (B : Z) :
  0 <= B -> at_most x B -> py_int x <= B.
Proof.
  intros HB Hx.
  destruct x as [s|s| |[] m e]; cbv beta iota delta [at_most] in Hx;
    try contradiction; [exact HB|].
  destruct Hx as [He Hm]. unfold py_int, cond_Zopp.
  rewrite Z.shiftl_div_pow2 by lia.
  pose proof (pow2_pos (- e) ltac:(lia)).
  apply Z.div_le_upper_bound; lia.
Qed.

(** Subtraction from an integer [M1] of a non-negative double of value at
    most [M1 - 1]: the difference is at most [M1]. *)
Lemma sub_at_most (M1 : Z) (y : spec_float) :
  1 <= M1 < 2 ^ 53 -> at_most y (M1 - 1) ->
  at_most (SFsub prec emax (py_float M1) y) M1.
Proof.
  intros [HM0 HM] Hy.
  destruct (py_float_normal M1 ltac:(lia)) as (ma & -> & Ema & Dma).
  set (ea := Zdigits2 M1 - 53) in *.
  assert (Hea : ea <= 0).
  { subst ea. pose proof (Zdigits2_le M1 53 ltac:(lia) HM). lia. }
  replace (53 - Zdigits2 M1) with (- ea) in Ema by (subst ea; lia).
  pose proof (pow2_pos (- ea) ltac:(lia)) as Hpa.
  destruct y as [s|s| |[] my ey]; cbv beta iota delta [at_most] in Hy;
    try contradiction.
  { simpl SFsub. cbv beta iota delta [at_most]. split; [exact Hea | lia]. }
  destruct Hy as [Hey Hmy].
  pose proof (pow2_pos (- ey) ltac:(lia)) as Hpy.
  unfold SFsub. rewrite !shl_align_spec. cbn [fst cond_Zopp].
  set (ez := Z.min ea ey).
  replace (Z.min ea ez) with ez by (subst ez; lia).
  replace (Z.min ey ez) with ez by (subst ez; lia).
  assert (Hez : ez <= 0) by (subst ez; lia).
  pose proof (pow2_pos (ea - ez) ltac:(subst ez; lia)) as Hpaz.
  pose proof (pow2_pos (ey - ez) ltac:(subst ez; lia)) as Hpyz.
  pose proof (pow2_pos (- ez) ltac:(lia)) as Hpz.
  rewrite !Z2Pos.id by nia.
  set (M := Z.pos ma * 2 ^ (ea - ez) - Z.pos my * 2 ^ (ey - ez)).
  assert (EA : Z.pos ma * 2 ^ (ea - ez) = M1 * 2 ^ (- ez)).
  { rewrite Ema, <- Z.mul_assoc, <- pow2_split by (subst ez; lia).
    f_equal. f_equal. lia. }
  assert (EY : Z.pos my * 2 ^ (ey - ez) <= (M1 - 1) * 2 ^ (- ez)).
  { replace (- ez) with (- ey + (ey - ez)) by lia.
    rewrite pow2_split by (subst ez; lia). nia. }
  assert (HMlo : 2 ^ (- ez) <= M) by (subst M; nia).
  assert (HMhi : M < M1 * 2 ^ (- ez)) by (subst M; nia).
  destruct M as [|Mp|Mp] eqn:EM; try lia.
  unfold binary_normalize, binary_round. rewrite shl_align_spec.
  change (SpecFloat.fexp prec emax (Z.pos (digits2_pos Mp) + ez))
    with (fexp64 (Zdigits2 (Zpos Mp) + ez)).
  set (ez' := Z.min ez (fexp64 (Zdigits2 (Z.pos Mp) + ez))).
  assert (Hez' : ez' <= ez) by (subst ez'; lia).
  pose proof (pow2_pos (ez - ez') ltac:(lia)) as Hpzz.
  pose proof (pow2_pos (- ez') ltac:(lia)) as Hpz'.
  rewrite Z2Pos.id by nia.
  set (mz := Z.pos Mp * 2 ^ (ez - ez')).
  assert (Hmzhi : mz < M1 * 2 ^ (- ez')).
  { subst mz. replace (- ez') with (- ez + (ez - ez')) by lia.
    rewrite pow2_split by lia. nia. }
  assert (Hmz53 : mz < 2 ^ (53 - ez')).
  { replace (53 - ez') with (53 + - ez') by lia. rewrite pow2_split by lia. nia. }
  assert (Hmz0 : 0 < mz) by (subst mz; nia).
  destruct (binary_round_aux_spec mz ez' loc_Exact ltac:(lia)) as (rounded & Hr & _ & ->).
  pose proof (round_shift_nonneg mz ez') as Hn1.
  pose proof (pow2_pos _ Hn1) as Hp1.
  set (e1 := ez' + round_shift mz ez').
  assert (He1 : e1 <= 0).
  { pose proof (Zdigits2_le mz (53 - ez') Hmz0 Hmz53).
    pose proof (fexp64_le_0 (Zdigits2 mz + ez') ltac:(lia)).
    subst e1. unfold round_shift. lia. }
  pose proof (pow2_pos (- e1) ltac:(lia)) as Hpe1.
  assert (Hq0 : 0 <= mz / 2 ^ round_shift mz ez') by (apply Z.div_pos; lia).
  assert (Hq : mz / 2 ^ round_shift mz ez' < M1 * 2 ^ (- e1)).
  { apply Z.div_lt_upper_bound; [exact Hp1|].
    replace (- ez') with (round_shift mz ez' + - e1) in Hmzhi by (subst e1; lia).
    rewrite pow2_split in Hmzhi by lia. lia. }
  cbv zeta. fold e1.
  apply (at_most_of_rounded rounded e1 M1); [lia | exact He1 | lia | lia].
Qed.

(** Every filler index is at most [original_words - 1]: a filler never goes
    behind the last word. *)
Lemma filler_index_at_most (original_words i deficit : Z) :
  2 <= original_words <= 2 ^ 53 -> 0 <= i < deficit -> deficit < 2 ^ 53 ->
  filler_index original_words i deficit <= original_words - 1.
Proof.
  intros HN Hi Hd. unfold filler_index.
  apply py_int_at_most; [lia|].
  apply sub_at_most; [lia|].
  replace (original_words - 1 - 1) with (original_words - 2) by lia.
  apply mul_at_most; [|lia].
  apply div_at_most_1; assumption.
Qed.

End Binary64Bounds.

Lemma list_insert_length {A : Type} (index : Z) (x : A) (l : list A) :
  length (list_insert index x l) = S (length l).
Proof.
  destruct (list_insert_concat index x l) as (a & b & E & ->).
  rewrite E, !length_app. simpl. lia.
Qed.

(** [list.insert] at an index inside the list leaves the last element in
    place. *)
Lemma list_insert_keeps_last {A : Type} (index : Z) (x z : A) (l : list A) :
  0 <= index <= Z.of_nat (length l) ->
  list_insert index x (l ++ [z]) = list_insert index x l ++ [z].
Proof.
  intros [H0 Hn]. unfold list_insert.
  destruct (Z.ltb_spec index 0) as [Hneg|_]; [lia|].
  rewrite length_app. simpl length.
  rewrite !Z.min_l by lia.
  rewrite firstn_app, skipn_app.
  replace (Z.to_nat index - length l)%nat with 0%nat by lia.
  simpl. rewrite app_nil_r, <- app_assoc. reflexivity.
Qed.

Lemma insert_fillers_keeps_last (count : nat) :
  forall (i deficit original_words : Z) (z : token) (ws : list token),
    2 <= original_words <= 2 ^ 53 -> deficit < 2 ^ 53 ->
    0 <= i -> i + Z.of_nat count <= deficit ->
    original_words - 1 <= Z.of_nat (length ws) ->
    insert_fillers count i deficit original_words (ws ++ [z])
    = insert_fillers count i deficit original_words ws ++ [z].
Proof.
  induction count as [|count IH]; intros i deficit n z ws Hn Hd Hi Hcount Hlen;
    cbn [insert_fillers]; [reflexivity|].
  assert (Hlo : 1 <= filler_index n i deficit)
    by (apply Binary64.filler_index_at_least_1; lia).
  assert (Hhi : filler_index n i deficit <= n - 1)
    by (apply Binary64Bounds.filler_index_at_most; lia).
  unfold token, str in *.
  rewrite list_insert_keeps_last by lia.
  apply IH; try lia. rewrite list_insert_length. lia.
Qed.

Lemma is_whitespace_retab (w : str) (offset ts : Z) :
  is_whitespace (retab w offset ts) = is_whitespace w.
Proof.
  unfold is_whitespace. induction w as [|ch w IH]; [reflexivity|].
  cbn [retab]. rewrite forallb_app, IH.
  destruct (ascii_eqb ch tab) eqn:E;
    [|cbn [forallb]; rewrite andb_true_r; reflexivity].
  apply ascii_eqb_eq in E. subst ch.
  replace (forallb in_whitespace (spaces (ts - offset mod ts))) with true; [reflexivity|].
  symmetry. unfold spaces. apply forallb_forall. intros x Hx.
  apply repeat_spec in Hx. subst x. reflexivity.
Qed.

(** The last word of a line, once the tabs are removed, is the last word
    with its tabs removed. *)
Lemma retab_words_last (init : list token) (z : token) (c : context) :
  forall cols, exists init' offset,
    fst (retab_words (init ++ [z]) cols c) = init' ++ [retab z offset (tabstop c)].
Proof.
  induction init as [|w init IH]; intros cols.
  - exists [], cols. reflexivity.
  - cbn [app retab_words].
    destruct (IH (add_cols (retab w cols (tabstop c)) cols c)) as (init' & offset & E).
    destruct (retab_words (init ++ [z]) _ c) as [ws' cols']. cbn [fst] in *.
    exists (retab w cols (tabstop c) :: init'), offset. rewrite E. reflexivity.
Qed.

(** X16: the fillers of a justified line go strictly inside it.  On a line
    of at least two printed tokens (counts below 2^53) every index computed
    at line 107, in binary64 arithmetic, lies between 1 and
    [original_words - 1].  So the first printed token is written first and
    the last one last; the last one is a word that is not whitespace, which
    keeps the right margin; and when the words given begin with a word that
    is not whitespace, the line begins with it, which keeps the left margin.
    (When they begin with the empty token and a gap, that empty token is the
    first printed token, and fillers can go between it and the first visible
    word.) *)
Theorem justified_line_keeps_margins (words : list token) (c : context) :
  justify c = true -> flow c = true ->
  let printed := fst (retab_words (printable_words words [] []) 0 c) in
  let deficit := width c - snd (retab_words (printable_words words [] []) 0 c) in
  let l := print_words_as_line words c in
  (2 <= length printed)%nat -> Z.of_nat (length printed) <= 2 ^ 53 ->
  deficit < 2 ^ 53 ->
  (forall i, 0 <= i < deficit ->
     1 <= filler_index (Z.of_nat (length printed)) i deficit
       <= Z.of_nat (length printed) - 1) /\
  hd_error (lo_words l) = hd_error printed /\
  last (lo_words l) [] = last printed [] /\
  is_whitespace (last (lo_words l) []) = false /\
  (forall w rest, words = w :: rest -> is_whitespace w = false ->
     hd_error (lo_words l) = Some (retab w 0 (tabstop c)) /\
     is_whitespace (retab w 0 (tabstop c)) = false).
Proof.
  intros Hj Hf.
  assert (Hlastp : forall pw cols,
             retab_words (printable_words words [] []) 0 c = (pw, cols) ->
             pw <> [] -> is_whitespace (last pw []) = false).
  { intros pw cols E Hne.
    destruct (printable_words_ends words [] [] (or_introl eq_refl))
      as [Hnil | (init & z & Ez & Hz)].
    - cbv zeta in Hnil. rewrite Hnil in E. injection E as <- _. congruence.
    - cbv zeta in Ez. rewrite Ez in E.
      destruct (retab_words_last init z c 0) as (init' & offset & El).
      rewrite E in El. cbn [fst] in El. rewrite El, last_last, is_whitespace_retab.
      exact Hz. }
  assert (Hfirst : forall w rest pw cols,
             words = w :: rest -> is_whitespace w = false ->
             retab_words (printable_words words [] []) 0 c = (pw, cols) ->
             hd_error pw = Some (retab w 0 (tabstop c))).
  { intros w rest pw cols -> Hw E. cbn [printable_words] in E.
    rewrite Hw in E. cbn [negb app] in E.
    destruct (printable_words_split rest [] [w] eq_refl) as (kept & dropped & _ & Ek & _).
    rewrite Ek in E. cbn [app retab_words] in E.
    destruct (retab_words kept _ c) as [ws' cols']. injection E as <- _. reflexivity. }
  unfold print_words_as_line. rewrite Hj, Hf. simpl andb. cbv iota.
  destruct (retab_words (printable_words words [] []) 0 c) as [pw cols] eqn:Epw.
  cbn [fst snd lo_words]. intros Hlen Hmax Hdef.
  assert (Hwords : 2 <= Z.of_nat (length pw) <= 2 ^ 53) by lia.
  assert (Hne : pw <> []) by (intros ->; simpl in Hlen; lia).
  split.
  { intros i Hi. split.
    - apply Binary64.filler_index_at_least_1; lia.
    - apply Binary64Bounds.filler_index_at_most; lia. }
  assert (Hends :
            hd_error (insert_fillers (Z.to_nat (width c - cols)) 0 (width c - cols)
                        (Z.of_nat (length pw)) pw) = hd_error pw /\
            last (insert_fillers (Z.to_nat (width c - cols)) 0 (width c - cols)
                    (Z.of_nat (length pw)) pw) [] = last pw []).
  { assert (Hcount : 0 + Z.of_nat (Z.to_nat (width c - cols)) <= width c - cols \/
                     width c - cols < 0) by lia.
    destruct Hcount as [Hcount|Hneg];
      [|replace (Z.to_nat (width c - cols)) with 0%nat by lia; split; reflexivity].
    split.
    - destruct pw as [|a pw]; [congruence|].
      destruct (insert_fillers_keeps_head (Z.to_nat (width c - cols)) 0 (width c - cols)
                  (Z.of_nat (length (a :: pw))) a pw Hwords Hdef (Z.le_refl 0) Hcount)
        as [ws' E].
      rewrite E. reflexivity.
    - destruct (exists_last Hne) as (init & z & E).
      subst pw. rewrite length_app in *. simpl length in *.
      rewrite insert_fillers_keeps_last by lia.
      rewrite !last_last. reflexivity. }
  destruct Hends as [Hhd Hlast].
  split; [exact Hhd|]. split; [exact Hlast|]. split.
  - rewrite Hlast. exact (Hlastp pw cols eq_refl Hne).
  - intros w rest Ew Hw. rewrite Hhd, is_whitespace_retab.
    split; [exact (Hfirst w rest pw cols Ew Hw eq_refl) | exact Hw].
Qed.

(** X16, witness: three words justified to 12 columns. *)
Lemma justified_line_keeps_margins_witness :
  let c := initial_context true true false 12 8 in
  let words := [py "aa"; [space]; py "bb"; [space]; py "cc"; [space]] in
  let printed := fst (retab_words (printable_words words [] []) 0 c) in
  let deficit := width c - snd (retab_words (printable_words words [] []) 0 c) in
  let l := print_words_as_line words c in
  (forall i, 0 <= i < deficit ->
     1 <= filler_index (Z.of_nat (length printed)) i deficit
       <= Z.of_nat (length printed) - 1) /\
  hd_error (lo_words l) = hd_error printed /\
  last (lo_words l) [] = last printed [] /\
  is_whitespace (last (lo_words l) []) = false /\
  (forall w rest, words = w :: rest -> is_whitespace w = false ->
     hd_error (lo_words l) = Some (retab w 0 (tabstop c)) /\
     is_whitespace (retab w 0 (tabstop c)) = false).
Proof.
  intros c words.
  apply (justified_line_keeps_margins words c);
    [reflexivity | reflexivity | simpl; lia | simpl; lia | vm_compute; reflexivity].
Defined.

(** The parenthesis of X16 at work: the comment ["#  aaa bbb ccc ddd eee"],
    whose text begins with a gap, justified to 20 columns.  The nine printed
    tokens begin with the empty token; the fillers go behind it, two of them
    in front of the first visible word. *)
Lemma fillers_before_first_visible_word :
  format_document (ln "#  aaa bbb ccc ddd eee") (initial_context true true false 20 8)
  = Some (ln "#   aaa  bbb  ccc  ddd" ++ ln "# eee").
Proof. vm_compute. reflexivity. Qed.

(** ** Documents that fit *)

Lemma next_prefix_no_asterisk (p : str) : ~ In "*"%char p -> next_prefix p = p.
Proof.
  intros H. unfold next_prefix.
  destruct (existsb (ascii_eqb "*") p) eqn:E; [|reflexivity].
  apply existsb_exists in E. destruct E as (ch & Hin & Hc).
  apply ascii_eqb_eq in Hc. subst ch. contradiction.
Qed.

Lemma guess_prefix_chars (line p : str) (ch : ascii) :
  guess_prefix (rstrip line) = Some p -> In ch p -> In ch line.
Proof.
  intros Hp Hin. destruct (guess_prefix_rstrip line) as (k & Hk).
  rewrite Hp in Hk. injection Hk as ->.
  destruct (rstrip_tail line) as (ws & E & _). rewrite E.
  apply in_or_app. left. rewrite <- (firstn_skipn k (rstrip line)).
  apply in_or_app. left. exact Hin.
Qed.

Lemma process_lines_fitting (lines : list str) :
  forall c : context,
    flow c = false -> code c = false -> underflow c = [] -> 0 < tabstop c ->
    ~ In "*"%char (prefix c) ->
    Forall (fun line => ~ In "*"%char line /\ add_cols (rstrip line) 0 c <= width c)
      lines ->
    exists c' out,
      process_lines lines c = Some (c', out) /\
      underflow c' = [] /\
      map line_text out = map rstrip lines.
Proof.
  induction lines as [|line lines IH]; intros c Hflow Hcode Hunder Hts Hstar Hall.
  - exists c, []. simpl. auto.
  - inversion Hall as [|x xs [Hline Hfit] Hrest]; subst x xs.
    destruct (guess_prefix_rstrip line) as (k & Hk).
    set (p := firstn k (rstrip line)) in *.
    assert (Hp : ~ In "*"%char p).
    { intros Hin. apply Hline. exact (guess_prefix_chars line p _ Hk Hin). }
    assert (Hcond : prefix c = p \/ next_prefix (prefix c) <> p).
    { rewrite (next_prefix_no_asterisk _ Hstar).
      destruct (list_eq_dec ascii_dec (prefix c) p); [left | right]; assumption. }
    destruct (process_line_fitting line p c Hflow Hcode Hunder Hts Hk Hcond Hfit)
      as (l & El & Hl).
    destruct (IH (set_prefix p c) Hflow Hcode Hunder Hts Hp) as (c' & out & E & Hu & Hout).
    { apply (Forall_impl _ (P := fun line =>
               ~ In "*"%char line /\ add_cols (rstrip line) 0 c <= width c));
        [|exact Hrest].
      intros a [Ha1 Ha2]. split; [exact Ha1|].
      rewrite (add_cols_tabstop _ _ (set_prefix p c) c) by reflexivity. exact Ha2. }
    exists c', (l :: out). simpl. rewrite El, E. split; [reflexivity|].
    split; [exact Hu|]. rewrite Hl, Hout. reflexivity.
Qed.

Lemma not_in_by_existsb (ch : ascii) (s : str) :
  existsb (ascii_eqb ch) s = false -> ~ In ch s.
Proof.
  intros E H. assert (Ht : existsb (ascii_eqb ch) s = true).
  { apply existsb_exists. exists ch. split; [exact H|]. apply ascii_eqb_eq. reflexivity. }
  rewrite E in Ht. discriminate.
Qed.

(** X22: a document that fits is reproduced.  Outside flow and code mode, a
    document without asterisks whose lines all take at most [width] columns
    is written back line for line; only the whitespace at the end of each
    line is replaced by a single newline. *)
Theorem fitting_document_unchanged (doc : str) (c : context) :
  flow c = false -> code c = false -> underflow c = [] -> 0 < tabstop c ->
  ~ In "*"%char (prefix c) ->
  ~ In "*"%char doc ->
  Forall (fun line => add_cols (rstrip line) 0 c <= width c) (readlines doc) ->
  format_document doc c
  = Some (flat_map (fun line => rstrip line ++ [newline]) (readlines doc)).
Proof.
  intros Hflow Hcode Hunder Hts Hstar Hdoc Hfit.
  assert (Hall : Forall (fun line => ~ In "*"%char line /\
                                     add_cols (rstrip line) 0 c <= width c)
                   (readlines doc)).
  { rewrite Forall_forall in *. intros line Hin. split; [|apply Hfit; exact Hin].
    intros Hch. apply Hdoc.
    destruct (readlines_loop_spec doc [] (fun H => H)) as [Hcat _].
    simpl in Hcat. rewrite <- Hcat. apply in_concat. exists line. split; assumption. }
  destruct (process_lines_fitting (readlines doc) c Hflow Hcode Hunder Hts Hstar Hall)
    as (c' & out & E & Hu & Hout).
  unfold format_document, format_lines. rewrite E.
  unfold resolve_context. rewrite Hu, app_nil_r. f_equal.
  unfold output_text. rewrite !flat_map_concat_map. f_equal.
  rewrite <- (map_map line_text (fun s => s ++ [newline])).
  rewrite <- (map_map rstrip (fun s => s ++ [newline])), Hout. reflexivity.
Qed.

(** X22, witness: a small document at width 20. *)
Lemma fitting_document_unchanged_witness :
  let doc := ln "# a comment  " ++ ln "" ++ ln "    some code" in
  let c := initial_context false false false 20 8 in
  format_document doc c
  = Some (flat_map (fun line => rstrip line ++ [newline]) (readlines doc)).
Proof.
  intros doc c.
  apply (fitting_document_unchanged doc c).
  - reflexivity.
  - reflexivity.
  - reflexivity.
  - reflexivity.
  - intros H; exact H.
  - apply not_in_by_existsb. vm_compute. reflexivity.
  - assert (E : readlines doc = [ln "# a comment  "; ln ""; ln "    some code"])
      by (vm_compute; reflexivity).
    rewrite E. repeat (constructor; [vm_compute; discriminate|]). constructor.
Defined.

(** ** The lines after a break *)

Lemma print_words_as_line_starts (first : token) (rest : list token) (c : context) :
  justify c && flow c = false -> is_whitespace first = false ->
  starts_with_word (print_words_as_line (first :: rest) c).
Proof.
  intros Hjf Hw. rewrite (print_words_as_line_plain _ c Hjf).
  unfold starts_with_word. cbn [lo_words printable_words]. rewrite Hw. cbn [negb app].
  destruct (printable_words_split rest [] [first] eq_refl) as (kept & dropped & _ & -> & _).
  exists first, kept. split; [reflexivity | exact Hw].
Qed.

(** The scan over the whitespace words after a break stops at a word that is
    not whitespace, or at the end. *)
Lemma skip_whitespace_words_stops (rest : list token) :
  forall idx,
    match skipn (skip_whitespace_words rest idx - idx) rest with
    | [] => True
    | w :: _ => is_whitespace w = false
    end.
Proof.
  induction rest as [|w rest IH]; intros idx; simpl skip_whitespace_words.
  - rewrite skipn_nil. exact I.
  - destruct (is_whitespace w) eqn:Hw.
    + pose proof (skip_whitespace_words_range rest (S idx)) as Hr.
      replace (skip_whitespace_words rest (S idx) - idx)%nat
        with (S (skip_whitespace_words rest (S idx) - S idx)) by lia.
      simpl skipn. apply IH.
    + rewrite Nat.sub_diag. simpl. exact Hw.
Qed.

Lemma process_words_starts (words : list token) (c : context) :
  justify c && flow c = false ->
  (forall first rest, underflow c ++ words = first :: rest ->
     is_whitespace first = false ->
     Forall starts_with_word (snd (process_words words c))) /\
  match snd (process_words words c) with
  | [] => True
  | _ :: later => Forall starts_with_word later
  end.
Proof.
  apply (process_words_induction
           (fun words c r =>
              justify c && flow c = false ->
              (forall first rest, underflow c ++ words = first :: rest ->
                 is_whitespace first = false -> Forall starts_with_word (snd r)) /\
              match snd r with
              | [] => True
              | _ :: later => Forall starts_with_word later
              end)).
  clear words c. intros words c IH Hjf.
  rewrite process_words_eq. cbv zeta.
  set (c0 := set_underflow [] c).
  assert (Hjf0 : justify c0 && flow c0 = false) by exact Hjf.
  destruct (underflow c ++ words) as [|first rest] eqn:Ews.
  - cbn [snd]. split; [intros f r E; discriminate | constructor].
  - destruct (find_overflow rest 1 _ _) as [k|] eqn:Ek.
    + destruct (remaining_words_shorter first rest _ _ _ Ek) as [Hk _].
      cbv zeta in Hk.
      assert (Hline : is_whitespace first = false ->
                      starts_with_word (print_words_as_line (firstn k (first :: rest)) c0)).
      { intros Hw. destruct k as [|k]; [lia|]. cbn [firstn].
        apply print_words_as_line_starts; assumption. }
      destruct (length (first :: rest) <=? _)%nat eqn:Hlen.
      * cbn [snd]. split; [|constructor].
        intros f r E Hw. injection E as <- <-. constructor; [auto | constructor].
      * apply Nat.leb_gt in Hlen.
        pose proof (skip_whitespace_words_stops (skipn k (first :: rest)) k) as Hstop.
        rewrite skipn_skipn in Hstop.
        replace (skip_whitespace_words (skipn k (first :: rest)) k - k + k)%nat
          with (skip_whitespace_words (skipn k (first :: rest)) k) in Hstop by lia.
        match goal with
        | |- context [process_words ?w ?c1] =>
            specialize (IH w c1); destruct (process_words w c1) as [c' lines]
        end.
        cbn [snd] in *.
        destruct IH as [IH1 _]; [words_decrease | exact Hjf|].
        assert (Hlines : Forall starts_with_word lines).
        { destruct (skipn (skip_whitespace_words (skipn k (first :: rest)) k)
                      (first :: rest)) as [|f r] eqn:Eskip.
          - apply (f_equal (@length token)) in Eskip. rewrite length_skipn in Eskip.
            simpl length in Eskip, Hlen. lia.
          - apply (IH1 f r); [reflexivity | exact Hstop]. }
        split; [|exact Hlines].
        intros f r E Hw. injection E as <- <-. constructor; [auto | exact Hlines].
    + destruct (flow c0) eqn:Ef; cbn [snd].
      * split; [intros; constructor | exact I].
      * split; [|constructor].
        intros f r E Hw. injection E as <- <-. constructor; [|constructor].
        apply print_words_as_line_starts; assumption.
Qed.

(** X23: wrapped lines start with a word.  Outside justify mode, every line
    [process_words] writes after the first one of a call begins, right after
    the prefix, with a word that is not whitespace: the whitespace at which
    a line was broken is dropped, not carried to the next line. *)
Theorem wrapped_lines_start_with_word (words : list token) (c : context) :
  justify c && flow c = false ->
  match snd (process_words words c) with
  | [] => True
  | _ :: later => Forall starts_with_word later
  end.
Proof. intros Hjf. apply (process_words_starts words c Hjf). Qed.

(** X23, witness: a line broken twice at width 8. *)
Lemma wrapped_lines_start_with_word_witness :
  match snd (process_words [py "aaa"; py "  "; py "bbb"; [space]; py "ccc"]
               (initial_context false false false 8 8)) with
  | [] => True
  | _ :: later => Forall starts_with_word later
  end.
Proof.
  apply (wrapped_lines_start_with_word
           [py "aaa"; py "  "; py "bbb"; [space]; py "ccc"]
           (initial_context false false false 8 8)).
  reflexivity.
Defined.

(** ** Flow mode: a paragraph given line by line *)

Lemma find_overflow_app_some (rest more : list token) (c : context) :
  forall (idx : nat) (cols : Z) (k : nat),
    find_overflow rest idx cols c = Some k ->
    find_overflow (rest ++ more) idx cols c = Some k.
Proof.
  induction rest as [|w rest IH]; intros idx cols k; simpl; [discriminate|].
  destruct (add_cols w cols c >? width c); [auto | apply IH].
Qed.

Lemma skip_whitespace_words_app (rest more : list token) (w : token) :
  is_whitespace w = false ->
  forall idx,
    skip_whitespace_words ((rest ++ [w]) ++ more) idx
    = skip_whitespace_words (rest ++ [w]) idx /\
    (skip_whitespace_words (rest ++ [w]) idx <= idx + length rest)%nat.
Proof.
  intros Hw. induction rest as [|x rest IH]; intros idx; simpl.
  - rewrite Hw. split; [reflexivity | lia].
  - destruct (is_whitespace x); [|split; [reflexivity | lia]].
    destruct (IH (S idx)) as [E Hle]. split; [exact E | lia].
Qed.

Lemma set_underflow_twice (u : list token) (c : context) :
  underflow c = [] -> set_underflow [] (set_underflow u c) = c.
Proof. destruct c; simpl; intros ->; reflexivity. Qed.

Lemma process_words_flow_append (w1 : list token) (c : context) :
  underflow c = [] -> flow c = true ->
  (exists init w, w1 = init ++ [w] /\ is_whitespace w = false) ->
  forall w2 : list token,
    process_words (w1 ++ [space] :: w2) c
    = (let (c1, out1) := process_words w1 c in
       let (c2, out2) := process_words w2 c1 in
       (c2, out1 ++ out2)).
Proof.
  apply (process_words_induction
           (fun w1 c r =>
              underflow c = [] -> flow c = true ->
              (exists init w, w1 = init ++ [w] /\ is_whitespace w = false) ->
              forall w2 : list token,
                process_words (w1 ++ [space] :: w2) c
                = (let (c1, out1) := r in
                   let (c2, out2) := process_words w2 c1 in
                   (c2, out1 ++ out2)))).
  clear w1 c. intros w1 c IH Hu Hf (init & w & -> & Hw) w2.
  assert (Hnone : forall ws1,
             process_words (ws1 ++ [space] :: w2) c
             = (let (c1, out1) := (set_underflow (ws1 ++ [[space]]) c, @nil line_out) in
                let (c2, out2) := process_words w2 c1 in
                (c2, out1 ++ out2))).
  { intros ws1.
    rewrite (process_words_consumes_underflow w2 (set_underflow (ws1 ++ [[space]]) c)).
    rewrite (set_underflow_twice _ c Hu).
    change (underflow (set_underflow (ws1 ++ [[space]]) c)) with (ws1 ++ [[space]]).
    rewrite <- app_assoc. cbn [app].
    destruct (process_words (ws1 ++ [space] :: w2) c) as [c2 out2]. reflexivity. }
  rewrite (process_words_eq (init ++ [w]) c). cbv zeta.
  rewrite Hu, (set_underflow_nil_id c Hu). cbn [app].
  destruct init as [|first init]; cbn [app].
  { cbn [find_overflow]. rewrite Hf. apply (Hnone [w]). }
  destruct (find_overflow (init ++ [w]) 1 (start_cols first c) c) as [k|] eqn:Ek;
    [|rewrite Hf; apply (Hnone (first :: init ++ [w]))].
  destruct (find_overflow_range _ _ _ _ _ Ek) as [Hk1 Hk2].
  rewrite length_app in Hk2. simpl length in Hk2.
  set (ws1 := first :: init ++ [w]) in *.
  set (X := ([space] : token) :: w2).
  assert (Hlen1 : length ws1 = S (S (length init))).
  { unfold ws1. simpl. rewrite length_app. simpl. lia. }
  assert (Hskipk : skipn k ws1 = skipn k (first :: init) ++ [w]).
  { unfold ws1. change (first :: init ++ [w]) with ((first :: init) ++ [w]).
    rewrite skipn_app. simpl length.
    replace (k - S (length init))%nat with 0%nat by lia. reflexivity. }
  destruct (skip_whitespace_words_app (skipn k (first :: init)) X w Hw k) as [Ek' Hk'].
  rewrite length_skipn in Hk'. simpl length in Hk'.
  set (k' := skip_whitespace_words (skipn k ws1) k).
  assert (Hk'' : (k <= k' <= S (length init))%nat).
  { unfold k'. rewrite Hskipk.
    pose proof (skip_whitespace_words_range (skipn k (first :: init) ++ [w]) k). lia. }
  assert (Hleb1 : (length ws1 <=? k')%nat = false) by (apply Nat.leb_gt; lia).
  rewrite Hleb1.
  (* the call on the whole paragraph *)
  change (process_words (first :: (init ++ [w]) ++ [space] :: w2) c)
    with (process_words (ws1 ++ X) c).
  etransitivity; [apply (process_words_eq (ws1 ++ X) c)|]. cbv zeta.
  rewrite Hu, (set_underflow_nil_id c Hu). cbn [app].
  change (first :: (init ++ [w]) ++ X) with (ws1 ++ X).
  unfold ws1 at 1. cbn [app].
  rewrite (find_overflow_app_some (init ++ [w]) X c 1 _ k Ek).
  change (first :: (init ++ [w]) ++ X) with (ws1 ++ X).
  assert (Hfirstn : firstn k (ws1 ++ X) = firstn k ws1).
  { rewrite firstn_app. replace (k - length ws1)%nat with 0%nat by lia.
    simpl. apply app_nil_r. }
  assert (Hskipn : skipn k (ws1 ++ X) = (skipn k (first :: init) ++ [w]) ++ X).
  { rewrite skipn_app. replace (k - length ws1)%nat with 0%nat by lia.
    rewrite Hskipk. reflexivity. }
  rewrite Hfirstn, Hskipn, Ek', <- Hskipk. fold k'.
  assert (Hleb2 : (length (ws1 ++ X) <=? k')%nat = false).
  { apply Nat.leb_gt. rewrite length_app. lia. }
  rewrite Hleb2.
  assert (Hskipn' : skipn k' (ws1 ++ X) = skipn k' ws1 ++ X).
  { rewrite skipn_app. replace (k' - length ws1)%nat with 0%nat by lia. reflexivity. }
  rewrite Hskipn'. unfold X.
  rewrite IH.
  - destruct (process_words (skipn k' ws1) _) as [c' lines].
    destruct (process_words w2 c') as [c2 out2]. reflexivity.
  - change (underflow (set_prefix (next_prefix (prefix c)) c)) with (underflow c).
    rewrite Hu. cbn [app]. rewrite length_skipn.
    change (first :: init ++ [w]) with ws1. lia.
  - exact Hu.
  - exact Hf.
  - exists (skipn k' (first :: init)), w. split; [|exact Hw].
    unfold ws1. change (first :: init ++ [w]) with ((first :: init) ++ [w]).
    rewrite skipn_app. simpl length.
    replace (k' - S (length init))%nat with 0%nat by lia. reflexivity.
Qed.

(** X24: in flow mode a paragraph can be given line by line.  With flow on
    and nothing pending, giving [process_words] the words of a line that
    ends with a word, and then the words of the next line, writes the same
    lines and leaves the same context as giving it at once the words of the
    first line, a single space and the words of the second. *)
Theorem flow_mode_joins_lines (w1 w2 : list token) (c : context) :
  underflow c = [] -> flow c = true ->
  (exists init w, w1 = init ++ [w] /\ is_whitespace w = false) ->
  process_words (w1 ++ [space] :: w2) c
  = (let (c1, out1) := process_words w1 c in
     let (c2, out2) := process_words w2 c1 in
     (c2, out1 ++ out2)).
Proof. intros Hu Hf Hw1. apply process_words_flow_append; assumption. Qed.

(** X24, witness: two lines of a paragraph at width 12. *)
Lemma flow_mode_joins_lines_witness :
  let c := initial_context true false false 12 8 in
  let w1 := [py "one"; [space]; py "two"; [space]; py "three"] in
  let w2 := [py "four"; [space]; py "five"] in
  process_words (w1 ++ [space] :: w2) c
  = (let (c1, out1) := process_words w1 c in
     let (c2, out2) := process_words w2 c1 in
     (c2, out1 ++ out2)).
Proof.
  intros c w1 w2.
  apply (flow_mode_joins_lines w1 w2 c); [reflexivity | reflexivity |].
  exists [py "one"; [space]; py "two"; [space]], (py "three").
  split; reflexivity.
Defined.
